(** * django_etesync/serializers.py: a shallow embedding

    The serializers of the EteSync storage core: the unpadded URL-safe
    base64 codec ([b64encode], [b64decode]), the revision builder
    [process_revisions_for_item], the item and collection serializers with
    their [transaction.atomic] blocks, and the [ctag] accessor.

    Python objects are records, querysets are lists of rows, exceptions
    are a result type, and the database together with the file storage is
    a state threaded through a small state-and-exception monad.

    The Django models (models.py) are not among the sources: the rows, the
    default of [current] and the two uniqueness constraints are modelled
    from the specification, each under a comment that says so. The
    standard library ([base64], [binascii]) and Django ([QuerySet],
    [transaction.atomic], [FieldFile.save]) are modelled from their
    documented behaviour. *)

From Stdlib Require Import ZArith NArith List Sorted Bool Lia.
From Stdlib.Strings Require Import Ascii String Byte.
Import ListNotations.

Local Open Scope list_scope.

(** ** Exceptions *)

(** The Python exceptions the modelled code can raise. *)
Inductive exn : Type :=
| AttributeError          (* attribute access on [None] *)
| IndexError              (* sequence index out of range *)
| ValueError              (* non-ASCII text handed to the base64 decoder *)
| UnicodeDecodeError      (* [bytes.decode('ascii')] on a byte above 0x7f *)
| BinasciiError           (* [binascii.Error]: malformed base64 *)
| DoesNotExist            (* [Model.DoesNotExist] of [QuerySet.get] *)
| MultipleObjectsReturned (* [QuerySet.get] matched several rows *)
| IntegrityError.         (* a database constraint rejected a write *)

Inductive result (A : Type) : Type :=
| Ok (a : A)
| Raise (e : exn).
Arguments Ok {A} a.
Arguments Raise {A} e.

Definition exn_eqb (a b : exn) : bool :=
  match a, b with
  | AttributeError, AttributeError | IndexError, IndexError
  | ValueError, ValueError | UnicodeDecodeError, UnicodeDecodeError
  | BinasciiError, BinasciiError | DoesNotExist, DoesNotExist
  | MultipleObjectsReturned, MultipleObjectsReturned
  | IntegrityError, IntegrityError => true
  | _, _ => false
  end.

(** ** The codec *)

(** Python [bytes] are lists of [byte]; Python [str] is [string]. *)
Definition bytes := list byte.

Module Base64.

Local Open Scope N_scope.

(** *** [binascii], as in CPython's [Modules/binascii.c] *)

Definition BASE64_PAD : byte := "="%byte.

Definition table_b2a_base64 : list byte :=
  list_byte_of_string
    "ABCDEFGHIJKLMNOPQRSTUVWXYZabcdefghijklmnopqrstuvwxyz0123456789+/".

(** [table_b2a_base64[n]] *)
Definition b2a (n : N) : byte := nth (N.to_nat n) table_b2a_base64 BASE64_PAD.

(** [table_a2b_base64[c]], [None] standing for the table's -1. *)
Definition table_a2b_base64 (c : byte) : option N :=
  let n := Byte.to_N c in
  if (65 <=? n) && (n <=? 90) then Some (n - 65)
  else if (97 <=? n) && (n <=? 122) then Some (n - 71)
  else if (48 <=? n) && (n <=? 57) then Some (n + 4)
  else if n =? 43 then Some 62
  else if n =? 47 then Some 63
  else None.

Definition byte_of_N (n : N) : byte :=
  match Byte.of_N n with Some b => b | None => x00 end.

(** The four 6-bit groups of a 24-bit group of three bytes. *)
Definition sextet1 (x : N) : N := N.shiftr x 2.
Definition sextet2 (x y : N) : N :=
  N.lor (N.shiftl (N.land x 3) 4) (N.shiftr y 4).
Definition sextet3 (y z : N) : N :=
  N.lor (N.shiftl (N.land y 15) 2) (N.shiftr z 6).
Definition sextet4 (z : N) : N := N.land z 63.

(** [binascii.b2a_base64(data, newline=False)]: three bytes give four
    characters; a final group of one or two bytes is padded with [=]. *)
Fixpoint b2a_base64 (data : bytes) : bytes :=
  match data with
  | [] => []
  | [a] =>
      let x := Byte.to_N a in
      [b2a (sextet1 x); b2a (sextet2 x 0); BASE64_PAD; BASE64_PAD]
  | [a; b] =>
      let x := Byte.to_N a in
      let y := Byte.to_N b in
      [b2a (sextet1 x); b2a (sextet2 x y); b2a (sextet3 y 0); BASE64_PAD]
  | a :: b :: c :: rest =>
      let x := Byte.to_N a in
      let y := Byte.to_N b in
      let z := Byte.to_N c in
      b2a (sextet1 x) :: b2a (sextet2 x y) :: b2a (sextet3 y z)
        :: b2a (sextet4 z) :: b2a_base64 rest
  end.

(** A character the decoder takes into account: 7-bit and either in the
    alphabet or the pad. *)
Definition b64_valid (c : byte) : bool :=
  (Byte.to_N c <=? 127) &&
  (Byte.eqb c BASE64_PAD ||
   match table_a2b_base64 c with Some _ => true | None => false end).

(** [binascii_find_valid(s, slen, num)]: the [(num+1)]-th valid
    character of [s], if any. *)
Fixpoint binascii_find_valid (s : bytes) (num : nat) : option byte :=
  match s with
  | [] => None
  | c :: s' =>
      if b64_valid c then
        match num with
        | O => Some c
        | S num' => binascii_find_valid s' num'
        end
      else binascii_find_valid s' num
  end.

Definition next_is_pad (s : bytes) : bool :=
  match binascii_find_valid s 1 with
  | Some c => Byte.eqb c BASE64_PAD
  | None => false
  end.

Definition skipped (c : byte) : bool :=
  let n := Byte.to_N c in
  (127 <? n) || (n =? 13) || (n =? 10) || (n =? 32).

(** The main loop of [binascii.a2b_base64]: the decoded bytes and the
    number of bits left over. *)
Fixpoint a2b_loop (quad_pos leftchar leftbits : N) (ascii_data : bytes)
  : bytes * N :=
  match ascii_data with
  | [] => ([], leftbits)
  | this_ch :: rest =>
      if skipped this_ch then a2b_loop quad_pos leftchar leftbits rest
      else if Byte.eqb this_ch BASE64_PAD then
        if (quad_pos <? 2)
           || ((quad_pos =? 2) && negb (next_is_pad ascii_data))
        then a2b_loop quad_pos leftchar leftbits rest
        else ([], 0)
      else
        match table_a2b_base64 this_ch with
        | None => a2b_loop quad_pos leftchar leftbits rest
        | Some v =>
            let quad_pos := N.land (quad_pos + 1) 3 in
            let leftchar := N.lor (N.shiftl leftchar 6) v in
            let leftbits := leftbits + 6 in
            if 8 <=? leftbits then
              let leftbits := leftbits - 8 in
              let '(out, bits) :=
                a2b_loop quad_pos
                  (N.land leftchar (N.shiftl 1 leftbits - 1)) leftbits rest in
              (byte_of_N (N.land (N.shiftr leftchar leftbits) 255) :: out,
               bits)
            else a2b_loop quad_pos leftchar leftbits rest
        end
  end%N.

Definition a2b_base64 (data : bytes) : result bytes :=
  let '(out, leftbits) := a2b_loop 0 0 0 data in
  if (leftbits =? 0)%N then Ok out else Raise BinasciiError.

(** *** [base64], as in CPython's [Lib/base64.py] *)

Definition translate (from to : byte) (c : byte) : byte :=
  if Byte.eqb c from then to else c.

(** [_urlsafe_encode_translation = bytes.maketrans(b'+/', b'-_')] *)
Definition urlsafe_encode_translation (c : byte) : byte :=
  translate "/" "_" (translate "+" "-" c).

(** [_urlsafe_decode_translation = bytes.maketrans(b'-_', b'+/')] *)
Definition urlsafe_decode_translation (c : byte) : byte :=
  translate "_" "/" (translate "-" "+" c).

Definition urlsafe_b64encode (s : bytes) : bytes :=
  map urlsafe_encode_translation (b2a_base64 s).

Definition is_ascii (c : byte) : bool := (Byte.to_N c <=? 127)%N.

(** [bytes.decode('ascii')] *)
Definition decode_ascii (b : bytes) : result string :=
  if forallb is_ascii b then Ok (string_of_list_byte b)
  else Raise UnicodeDecodeError.

(** [_bytes_from_decode_types] on a [str]: [s.encode('ascii')], a
    [ValueError] when the text is not ASCII. *)
Definition bytes_from_decode_types (s : string) : result bytes :=
  let b := list_byte_of_string s in
  if forallb is_ascii b then Ok b else Raise ValueError.

Definition urlsafe_b64decode (s : string) : result bytes :=
  match bytes_from_decode_types s with
  | Raise e => Raise e
  | Ok b => a2b_base64 (map urlsafe_decode_translation b)
  end.

End Base64.

(** *** [str] helpers *)

Fixpoint lstrip (c : ascii) (s : string) : string :=
  match s with
  | EmptyString => EmptyString
  | String a s' => if Ascii.eqb a c then lstrip c s' else s
  end.

Fixpoint rstrip (c : ascii) (s : string) : string :=
  match s with
  | EmptyString => EmptyString
  | String a s' =>
      match rstrip c s' with
      | EmptyString => if Ascii.eqb a c then EmptyString else String a EmptyString
      | t => String a t
      end
  end.

(** [s.strip(c)] for a one-character set. *)
Definition strip (c : ascii) (s : string) : string := rstrip c (lstrip c s).

(** [c * n] *)
Fixpoint str_repeat (c : ascii) (n : nat) : string :=
  match n with
  | O => EmptyString
  | S n' => String c (str_repeat c n')
  end.

(** *** [b64encode] and [b64decode] of the serializers *)

(** [base64.urlsafe_b64encode(value).decode('ascii').strip('=')] *)
Definition b64encode (value : bytes) : result string :=
  match Base64.decode_ascii (Base64.urlsafe_b64encode value) with
  | Ok s => Ok (strip "=" s)
  | Raise e => Raise e
  end.

(** [data += "=" * ((4 - len(data) % 4) % 4)] and then
    [base64.urlsafe_b64decode(data)]. *)
Definition b64decode (data : string) : result bytes :=
  let data :=
    (data ++ str_repeat "=" ((4 - String.length data mod 4) mod 4))%string in
  Base64.urlsafe_b64decode data.

(** ** Fields *)

Module BinaryBase64Field.
Definition to_representation (value : bytes) : result string :=
  b64encode value.
Definition to_internal_value (data : string) : result bytes :=
  b64decode data.
End BinaryBase64Field.

(** A chunk tuple as [process_revisions_for_item] reads it: [(uid,)] is
    [(uid, None)] and [(uid, content)] is [(uid, Some content)]; only
    [chunk[0]], [len(chunk) > 1] and [chunk[1]] are looked at. *)
Definition chunk_tuple : Type := string * option bytes.

Module ChunksField.
(** [return (data[0], b64decode(data[1]))], on the JSON list [data]. *)
Definition to_internal_value (data : list string) : result chunk_tuple :=
  match nth_error data 0 with
  | None => Raise IndexError
  | Some uid =>
      match nth_error data 1 with
      | None => Raise IndexError
      | Some text =>
          match b64decode text with
          | Raise e => Raise e
          | Ok content => Ok (uid, Some content)
          end
      end
  end.
End ChunksField.

(** ** The tables *)

Local Open Scope Z_scope.

(** Modelled from the spec: the access levels of [CollectionMember]
    ("accessLevel (enum, e.g. ADMIN/read/write)"); models.py, which
    declares them, is not among the sources and the serializers name
    [ADMIN] only. *)
Inductive AccessLevels : Type := ADMIN | READ_WRITE | READ_ONLY.

(** Modelled from the spec: the rows of models.py (not among the sources),
    with the fields of section 3 of the specification and the ones the
    serializers read and write. [None] is SQL NULL. *)
Record Collection : Type := {
  col_id : Z;
  col_uid : string;
  col_version : Z;
  col_owner : option Z;
  col_mainItem : option Z
}.

Record CollectionItem : Type := {
  item_id : Z;
  item_uid : option string;
  item_encryptionKey : option bytes;
  item_version : Z;
  item_collection : Z
}.

Record CollectionItemChunk : Type := {
  chunk_id : Z;
  chunk_uid : string;
  chunk_item : Z;
  chunk_chunkFile : Z
}.

Record CollectionItemRevision : Type := {
  rev_id : Z;
  rev_uid : string;
  rev_item : Z;
  rev_meta : bytes;
  rev_current : option bool;
  rev_deleted : bool
}.

Record RevisionChunkRelation : Type := {
  rel_id : Z;
  rel_chunk : Z;
  rel_revision : Z
}.

Record CollectionMember : Type := {
  mem_id : Z;
  mem_collection : Z;
  mem_user : option Z;
  mem_accessLevel : AccessLevels;
  mem_encryptionKey : bytes
}.

Record database : Type := {
  collections : list Collection;
  items : list CollectionItem;
  chunks : list CollectionItemChunk;
  revisions : list CollectionItemRevision;
  relations : list RevisionChunkRelation;
  members : list CollectionMember
}.

(** Modelled from the spec: the file storage behind [chunkFile], whose
    [upload_to] path function is declared in models.py (not among the
    sources): "reliable, append-only" storage with [save] and [open].
    Files are named by a handle; a saved file gets a handle of its own, as
    [Storage.save] of Django picks a name that is not in use. *)
Definition file_storage : Type := list (Z * bytes).

(** The database and the file storage; a transaction covers the former
    only. *)
Record state : Type := {
  db : database;
  storage : file_storage
}.

Definition empty_db : database :=
  {| collections := []; items := []; chunks := []; revisions := [];
     relations := []; members := [] |}.

Definition initial : state := {| db := empty_db; storage := [] |}.

(** ** State and exceptions *)

Definition M (A : Type) : Type := state -> result A * state.

Definition ret {A} (a : A) : M A := fun s => (Ok a, s).

Definition raise {A} (e : exn) : M A := fun s => (Raise e, s).

Definition bind {A B} (m : M A) (k : A -> M B) : M B :=
  fun s =>
    match m s with
    | (Ok a, s1) => k a s1
    | (Raise e, s1) => (Raise e, s1)
    end.

Notation "x <- m ;; k" := (bind m (fun x => k))
  (at level 61, m at next level, right associativity).
Notation "m ;;; k" := (bind m (fun _ => k))
  (at level 61, right associativity).

(** A read-only query. *)
Definition query {A} (q : database -> A) : M A := fun s => (Ok (q (db s)), s).

(** A write that the database may reject. *)
Definition write {A} (w : database -> result (A * database)) : M A :=
  fun s =>
    match w (db s) with
    | Ok (a, d) => (Ok a, {| db := d; storage := storage s |})
    | Raise e => (Raise e, s)
    end.

(** [with transaction.atomic(): body]: an exception leaving the block rolls
    the database back to its state on entry and goes on to the caller. The
    file storage takes no part in the transaction. *)
Definition atomic {A} (body : M A) : M A :=
  fun s =>
    match body s with
    | (Ok a, s1) => (Ok a, s1)
    | (Raise e, s1) => (Raise e, {| db := db s; storage := storage s1 |})
    end.

(** ** The ORM *)

(** The value an [AutoField] primary key takes on insertion. *)
Definition next_id (ids : list Z) : Z := 1 + fold_right Z.max 0 ids.

Section Rows.
Context {A : Type} (pk : A -> Z).

Definition has_pk (id : Z) (l : list A) : bool :=
  existsb (fun x => pk x =? id) l.

(** [UPDATE ... WHERE id = pk r] *)
Definition replace_row (r : A) (l : list A) : list A :=
  map (fun x => if pk x =? pk r then r else x) l.

(** [Model.save()] of an instance that has a primary key: an UPDATE, and
    an INSERT when no row was updated. *)
Definition save_row (r : A) (l : list A) : list A :=
  if has_pk (pk r) l then replace_row r l else l ++ [r].
End Rows.

Module QuerySet.
Section Ordered.
Context {A : Type} (pk : A -> Z).

(** [QuerySet.first()] of an unordered queryset: the first row by primary
    key, [None] when there is none. ([select_for_update()] before it locks
    the rows and selects the same ones.) *)
Definition first (l : list A) : option A :=
  fold_right
    (fun r acc =>
       match acc with
       | Some a => if pk a <? pk r then Some a else Some r
       | None => Some r
       end) None l.

(** [QuerySet.last()] of an unordered queryset: the first row by
    descending primary key, [None] when there is none. *)
Definition last (l : list A) : option A :=
  fold_right
    (fun r acc =>
       match acc with
       | Some a => if pk r <? pk a then Some a else Some r
       | None => Some r
       end) None l.

(** [QuerySet.get()]: the one row of the queryset. *)
Definition get (l : list A) : result A :=
  match l with
  | [] => Raise DoesNotExist
  | [r] => Ok r
  | _ :: _ :: _ => Raise MultipleObjectsReturned
  end.
End Ordered.
End QuerySet.

Definition set_chunks (d : database) (l : list CollectionItemChunk) :=
  {| collections := collections d; items := items d; chunks := l;
     revisions := revisions d; relations := relations d;
     members := members d |}.

Definition set_revisions (d : database) (l : list CollectionItemRevision) :=
  {| collections := collections d; items := items d; chunks := chunks d;
     revisions := l; relations := relations d; members := members d |}.

Definition set_relations (d : database) (l : list RevisionChunkRelation) :=
  {| collections := collections d; items := items d; chunks := chunks d;
     revisions := revisions d; relations := l; members := members d |}.

Definition set_items (d : database) (l : list CollectionItem) :=
  {| collections := collections d; items := l; chunks := chunks d;
     revisions := revisions d; relations := relations d;
     members := members d |}.

Definition set_collections (d : database) (l : list Collection) :=
  {| collections := l; items := items d; chunks := chunks d;
     revisions := revisions d; relations := relations d;
     members := members d |}.

Definition set_members (d : database) (l : list CollectionMember) :=
  {| collections := collections d; items := items d; chunks := chunks d;
     revisions := revisions d; relations := relations d; members := l |}.

(** *** Constraints *)

(** Modelled from the spec: the uniqueness constraints of models.py (not
    among the sources). "A uid is globally unique" and "the Chunk Store's
    uniqueness guarantee on uid": no two chunks share a uid. *)
Definition chunk_uid_taken (c : CollectionItemChunk)
  (l : list CollectionItemChunk) : bool :=
  existsb (fun x => negb (chunk_id x =? chunk_id c)
                    && String.eqb (chunk_uid x) (chunk_uid c)) l.

Definition same_current (a b : option bool) : bool :=
  match a, b with
  | Some x, Some y => Bool.eqb x y
  | _, _ => false
  end.

(** Modelled from the spec: the constraint of models.py (not among the
    sources) that the comment in [update] calls "the unique constraint on
    current" and the specification states as "the storage layer enforces
    that at most one revision per item may have [current = true]": no two
    revisions of an item share a value of [current]. NULLs never clash in
    a unique index, so any number of revisions of an item may have
    [current = None], which is the value [update] demotes with. *)
Definition current_taken (r : CollectionItemRevision)
  (l : list CollectionItemRevision) : bool :=
  existsb (fun x => negb (rev_id x =? rev_id r)
                    && (rev_item x =? rev_item r)
                    && same_current (rev_current x) (rev_current r)) l.

(** Modelled from the spec: the default of [CollectionItemRevision.current]
    in models.py (not among the sources): a revision is created current
    ("marks it current=true"); the serializers never pass [current]. *)
Definition default_current : option bool := Some true.

(** *** Writes *)

Definition Collection_insert (mk : Z -> Collection) : M Collection :=
  write (fun d =>
    let r := mk (next_id (map col_id (collections d))) in
    Ok (r, set_collections d (collections d ++ [r]))).

Definition Collection_save (r : Collection) : M unit :=
  write (fun d => Ok (tt, set_collections d (save_row col_id r (collections d)))).

Definition CollectionItem_insert (mk : Z -> CollectionItem) : M CollectionItem :=
  write (fun d =>
    let r := mk (next_id (map item_id (items d))) in
    Ok (r, set_items d (items d ++ [r]))).

Definition CollectionItemChunk_insert (mk : Z -> CollectionItemChunk)
  : M CollectionItemChunk :=
  write (fun d =>
    let r := mk (next_id (map chunk_id (chunks d))) in
    if chunk_uid_taken r (chunks d) then Raise IntegrityError
    else Ok (r, set_chunks d (chunks d ++ [r]))).

Definition CollectionItemChunk_save (r : CollectionItemChunk) : M unit :=
  write (fun d =>
    if chunk_uid_taken r (chunks d) then Raise IntegrityError
    else Ok (tt, set_chunks d (save_row chunk_id r (chunks d)))).

Definition CollectionItemRevision_insert (mk : Z -> CollectionItemRevision)
  : M CollectionItemRevision :=
  write (fun d =>
    let r := mk (next_id (map rev_id (revisions d))) in
    if current_taken r (revisions d) then Raise IntegrityError
    else Ok (r, set_revisions d (revisions d ++ [r]))).

Definition CollectionItemRevision_save (r : CollectionItemRevision) : M unit :=
  write (fun d =>
    if current_taken r (revisions d) then Raise IntegrityError
    else Ok (tt, set_revisions d (save_row rev_id r (revisions d)))).

Definition RevisionChunkRelation_insert (mk : Z -> RevisionChunkRelation)
  : M RevisionChunkRelation :=
  write (fun d =>
    let r := mk (next_id (map rel_id (relations d))) in
    Ok (r, set_relations d (relations d ++ [r]))).

Definition CollectionMember_insert (mk : Z -> CollectionMember)
  : M CollectionMember :=
  write (fun d =>
    let r := mk (next_id (map mem_id (members d))) in
    Ok (r, set_members d (members d ++ [r]))).

(** [Storage.save]: the content goes to a file of its own. *)
Definition storage_save (content : bytes) : M Z :=
  fun s =>
    let name := next_id (map fst (storage s)) in
    (Ok name, {| db := db s; storage := storage s ++ [(name, content)] |}).

(** [open(path, 'rb').read()] *)
Definition storage_open (name : Z) (st : file_storage) : option bytes :=
  match find (fun f => fst f =? name) st with
  | Some f => Some (snd f)
  | None => None
  end.

(** The bytes a chunk row stands for. *)
Definition chunk_bytes (s : state) (c : CollectionItemChunk) : option bytes :=
  storage_open (chunk_chunkFile c) (storage s).

(** ** The revision builder *)

(** The validated [content] of a payload: the fields of
    [CollectionItemRevisionSerializer], [chunks] under its source name. *)
Record revision_data : Type := {
  rd_uid : string;
  rd_meta : bytes;
  rd_deleted : bool;
  chunks_relation : list chunk_tuple
}.

(** The body of the loop over [chunks] in [process_revisions_for_item]. *)
Definition resolve_chunk (item : CollectionItem) (chunk : chunk_tuple)
  : M CollectionItemChunk :=
  let uid := fst chunk in
  match snd chunk with
  | Some content =>
      (* chunk.chunkFile.save('IGNORED', ContentFile(content)): the file is
         written, then the instance is saved (save=True) *)
      name <- storage_save content ;;
      chunk <- CollectionItemChunk_insert (fun id =>
                 {| chunk_id := id; chunk_uid := uid;
                    chunk_item := item_id item; chunk_chunkFile := name |}) ;;
      (* chunk.save() *)
      CollectionItemChunk_save chunk ;;;
      ret chunk
  | None =>
      c <- query (fun d =>
             QuerySet.get
               (filter (fun x => String.eqb (chunk_uid x) uid) (chunks d))) ;;
      match c with
      | Ok chunk => ret chunk
      | Raise e => raise e
      end
  end.

Fixpoint resolve_chunks (item : CollectionItem) (chunks : list chunk_tuple)
  : M (list CollectionItemChunk) :=
  match chunks with
  | [] => ret []
  | chunk :: rest =>
      c <- resolve_chunk item chunk ;;
      chunks_objs <- resolve_chunks item rest ;;
      ret (c :: chunks_objs)
  end.

Fixpoint create_relations (revision : CollectionItemRevision)
  (chunks_objs : list CollectionItemChunk) : M unit :=
  match chunks_objs with
  | [] => ret tt
  | chunk :: rest =>
      RevisionChunkRelation_insert (fun id =>
        {| rel_id := id; rel_chunk := chunk_id chunk;
           rel_revision := rev_id revision |}) ;;;
      create_relations revision rest
  end.

Definition process_revisions_for_item (item : CollectionItem)
  (revision_data : revision_data) : M CollectionItemRevision :=
  chunks_objs <- resolve_chunks item (chunks_relation revision_data) ;;
  revision <- CollectionItemRevision_insert (fun id =>
                {| rev_id := id; rev_uid := rd_uid revision_data;
                   rev_item := item_id item; rev_meta := rd_meta revision_data;
                   rev_current := default_current;
                   rev_deleted := rd_deleted revision_data |}) ;;
  create_relations revision chunks_objs ;;;
  ret revision.

(** ** The serializers *)

Definition is_current (r : CollectionItemRevision) : bool :=
  match rev_current r with Some true => true | _ => false end.

(** [item.revisions.filter(current=True)] *)
Definition current_revisions (item : Z) (d : database)
  : list CollectionItemRevision :=
  filter (fun r => (rev_item r =? item) && is_current r) (revisions d).

Definition set_current (r : CollectionItemRevision) (c : option bool)
  : CollectionItemRevision :=
  {| rev_id := rev_id r; rev_uid := rev_uid r; rev_item := rev_item r;
     rev_meta := rev_meta r; rev_current := c; rev_deleted := rev_deleted r |}.

Module CollectionItemSerializer.

(** The validated data of an item payload: the serializer's fields, and
    the collection, which [serializer.save] passes on from its caller. *)
Record validated_data : Type := {
  uid : option string;
  version : Z;
  encryptionKey : option bytes;
  collection : Z;
  content : revision_data
}.

Definition create (validated_data : validated_data) : M CollectionItem :=
  let revision_data := content validated_data in
  atomic (
    instance <- CollectionItem_insert (fun id =>
                  {| item_id := id; item_uid := uid validated_data;
                     item_encryptionKey := encryptionKey validated_data;
                     item_version := version validated_data;
                     item_collection := collection validated_data |}) ;;
    process_revisions_for_item instance revision_data ;;;
    ret instance).

Definition update (instance : CollectionItem)
  (validated_data : validated_data) : M CollectionItem :=
  let revision_data := content validated_data in
  atomic (
    current_revision <-
      query (fun d =>
        QuerySet.first rev_id (current_revisions (item_id instance) d)) ;;
    match current_revision with
    | None => raise AttributeError (* None.current = None *)
    | Some current_revision =>
        CollectionItemRevision_save (set_current current_revision None) ;;;
        process_revisions_for_item instance revision_data ;;;
        ret instance
    end).

End CollectionItemSerializer.

Module CollectionSerializer.

(** The validated data of a collection payload: the serializer's fields
    ([encryptionKey] decoded by its field), and the owner, which
    [serializer.save] passes on from its caller when there is one. *)
Record validated_data : Type := {
  uid : string;
  version : Z;
  owner : option Z;
  encryptionKey : bytes;
  content : revision_data
}.

Definition in_collection (obj : Collection) (d : database)
  (r : CollectionItemRevision) : bool :=
  existsb (fun i => (item_id i =? rev_item r)
                    && (item_collection i =? col_id obj)) (items d).

(** [CollectionItemRevision.objects.filter(item__collection=obj).last()]
    and its [uid]. *)
Definition get_ctag (obj : Collection) (d : database) : option string :=
  let last_revision :=
    QuerySet.last rev_id (filter (in_collection obj d) (revisions d)) in
  match last_revision with
  | None => None
  | Some last_revision => Some (rev_uid last_revision)
  end.

Definition set_mainItem (c : Collection) (i : option Z) : Collection :=
  {| col_id := col_id c; col_uid := col_uid c; col_version := col_version c;
     col_owner := col_owner c; col_mainItem := i |}.

Definition create (validated_data : validated_data) : M Collection :=
  let revision_data := content validated_data in
  let encryption_key := encryptionKey validated_data in
  atomic (
    instance <- Collection_insert (fun id =>
                  {| col_id := id; col_uid := uid validated_data;
                     col_version := version validated_data;
                     col_owner := owner validated_data;
                     col_mainItem := None |}) ;;
    main_item <- CollectionItem_insert (fun id =>
                   {| item_id := id; item_uid := None;
                      item_encryptionKey := None;
                      item_version := col_version instance;
                      item_collection := col_id instance |}) ;;
    let instance := set_mainItem instance (Some (item_id main_item)) in
    process_revisions_for_item main_item revision_data ;;;
    Collection_save instance ;;;
    CollectionMember_insert (fun id =>
      {| mem_id := id; mem_collection := col_id instance;
         mem_user := owner validated_data;
         mem_accessLevel := ADMIN;
         mem_encryptionKey := encryption_key |}) ;;;
    ret instance).

(** [instance.mainItem]: the item the foreign key names, fetched from
    the database; [None] when the key is NULL. *)
Definition mainItem (instance : Collection) : M (option CollectionItem) :=
  match col_mainItem instance with
  | None => ret None
  | Some id =>
      i <- query (fun d =>
             QuerySet.get (filter (fun x => item_id x =? id) (items d))) ;;
      match i with
      | Ok item => ret (Some item)
      | Raise e => raise e
      end
  end.

Definition update (instance : Collection) (validated_data : validated_data)
  : M Collection :=
  let revision_data := content validated_data in
  atomic (
    main_item <- mainItem instance ;;
    match main_item with
    | None => raise AttributeError (* None.revisions *)
    | Some main_item =>
        current_revision <-
          query (fun d =>
            QuerySet.first rev_id
              (current_revisions (item_id main_item) d)) ;;
        match current_revision with
        | None => raise AttributeError (* None.current = None *)
        | Some current_revision =>
            CollectionItemRevision_save (set_current current_revision None) ;;;
            process_revisions_for_item main_item revision_data ;;;
            ret instance
        end
    end).

End CollectionSerializer.

(** ** A scenario *)

(** The scenario of the specification: an item is created with revision
    [r1] over a new chunk [c1] holding "hello", then updated with revision
    [r2] that refers to [c1]. *)
Module Scenario.
Import CollectionItemSerializer.

Definition hello : bytes := list_byte_of_string "hello".

Definition payload (rev : string) (chunks : list chunk_tuple)
  : validated_data :=
  {| uid := Some "i1"%string; version := 1; encryptionKey := None;
     collection := 1;
     content := {| rd_uid := rev; rd_meta := list_byte_of_string "abc";
                   rd_deleted := false; chunks_relation := chunks |} |}.

Definition created : result CollectionItem * state :=
  create (payload "r1" [("c1"%string, Some hello)]) initial.

Definition item : CollectionItem :=
  {| item_id := 1; item_uid := Some "i1"%string; item_encryptionKey := None;
     item_version := 1; item_collection := 1 |}.

Definition updated : result CollectionItem * state :=
  update item (payload "r2" [("c1"%string, None)]) (snd created).

(** A collection payload whose content brings a new chunk and then
    refers to a chunk nobody uploaded. *)
Definition orphan : CollectionSerializer.validated_data :=
  {| CollectionSerializer.uid := "col1";
     CollectionSerializer.version := 1;
     CollectionSerializer.owner := Some 7;
     CollectionSerializer.encryptionKey := list_byte_of_string "key";
     CollectionSerializer.content :=
       {| rd_uid := "r0"; rd_meta := []; rd_deleted := false;
          chunks_relation :=
            [("c0"%string, Some hello); ("missing"%string, None)] |} |}.

(** A collection payload with one new chunk. *)
Definition bootstrap : CollectionSerializer.validated_data :=
  {| CollectionSerializer.uid := "col1";
     CollectionSerializer.version := 1;
     CollectionSerializer.owner := Some 7;
     CollectionSerializer.encryptionKey := list_byte_of_string "key";
     CollectionSerializer.content :=
       {| rd_uid := "r0"; rd_meta := []; rd_deleted := false;
          chunks_relation := [("c0"%string, Some hello)] |} |}.

Definition collection_row : Collection :=
  {| col_id := 1; col_uid := "col1"; col_version := 1; col_owner := Some 7;
     col_mainItem := Some 1 |}.

(** A database with a collection and its item but no revision. *)
Definition bare : state :=
  {| db := {| collections := [collection_row]; items := [item];
              chunks := []; revisions := []; relations := [];
              members := [] |};
     storage := [] |}.

(** A chunk list that mixes uploads and references: a new chunk, the
    chunk of [created], another new chunk, and the chunk of [created]
    again. *)
Definition mixed_chunks : list chunk_tuple :=
  [("c2"%string, Some (list_byte_of_string "two"));
   ("c1"%string, None);
   ("c3"%string, Some (list_byte_of_string "three"));
   ("c1"%string, None)].

(** The state inside [update], lines 145-147 done and line 149 not yet:
    the revision of [created] is no longer current. *)
Definition demoted : state :=
  {| db := set_revisions (db (snd created))
             [{| rev_id := 1; rev_uid := "r1"; rev_item := 1;
                 rev_meta := list_byte_of_string "abc";
                 rev_current := None; rev_deleted := false |}];
     storage := storage (snd created) |}.

(** Line 149 of [update] on the mixed chunk list. *)
Definition rebuilt : result CollectionItemRevision * state :=
  process_revisions_for_item item (content (payload "r2" mixed_chunks))
    demoted.
End Scenario.

(** ** Reading back: the serializer context and the read-side fields *)

(** [request]: only [request.user] is read, here by primary key. *)
Record Request : Type := { req_user : Z }.

(** [self.context]: a dict that may hold the request and the [inline]
    flag. *)
Record serializer_context : Type := {
  ctx_request : option Request;
  ctx_inline : option bool
}.

(** [instance.members.get(user=request.user)] *)
Definition members_get (instance : Collection) (request : Request)
  (d : database) : result CollectionMember :=
  QuerySet.get
    (filter (fun m => (mem_collection m =? col_id instance)
                      && match mem_user m with
                         | Some u => u =? req_user request
                         | None => false
                         end) (members d)).

(** [CollectionEncryptionKeyField.get_attribute] *)
Definition CollectionEncryptionKeyField_get_attribute
  (context : serializer_context) (instance : Collection) (d : database)
  : result (option bytes) :=
  match ctx_request context with (* self.context.get('request', None) *)
  | Some request =>
      match members_get instance request d with
      | Ok member => Ok (Some (mem_encryptionKey member))
      | Raise e => Raise e
      end
  | None => Ok None
  end.

(** [CollectionSerializer.get_access_level_from_context] *)
Definition get_access_level_from_context
  (context : serializer_context) (obj : Collection) (d : database)
  : result (option AccessLevels) :=
  match ctx_request context with
  | Some request =>
      match members_get obj request d with
      | Ok member => Ok (Some (mem_accessLevel member))
      | Raise e => Raise e
      end
  | None => Ok None
  end.

(** What [ChunksField.to_representation] gives: a value, an exception of
    [exn], or the [FileNotFoundError] of [open]. *)
Inductive outcome (A : Type) : Type :=
| Returned (a : A)
| Raised (e : exn)
| RaisedFileNotFoundError.
Arguments Returned {A} a.
Arguments Raised {A} e.
Arguments RaisedFileNotFoundError {A}.

(** [ChunksField.to_representation]: [obj.chunk] is fetched by its key;
    [(uid, text)] is [(uid, Some text)] and [(uid,)] is [(uid, None)]. *)
Definition ChunksField_to_representation (context : serializer_context)
  (obj : RevisionChunkRelation) (s : state)
  : outcome (string * option string) :=
  match QuerySet.get
          (filter (fun c => chunk_id c =? rel_chunk obj) (chunks (db s))) with
  | Raise e => Raised e
  | Ok obj =>
      let inline :=
        match ctx_inline context with (* self.context.get('inline', False) *)
        | Some inline => inline
        | None => false
        end in
      if inline then
        match storage_open (chunk_chunkFile obj) (storage s) with
        | None => RaisedFileNotFoundError
        | Some content =>
            match b64encode content with
            | Ok text => Returned (chunk_uid obj, Some text)
            | Raise e => Raised e
            end
        end
      else Returned (chunk_uid obj, None)
  end.

(** The JSON list a chunk tuple of the representation is sent as. *)
Definition chunk_tuple_json (t : string * option string) : list string :=
  match t with
  | (uid, Some text) => [uid; text]
  | (uid, None) => [uid]
  end.

(** * Vocabulary of the proofs *)

(** A property of the numbers below [n], checked one by one. *)
Fixpoint all_below (n : nat) (p : N -> bool) : bool :=
  match n with
  | O => true
  | S k => p (N.of_nat k) && all_below k p
  end.

(** What the decoder needs of the [n]-th character of the alphabet. *)
Definition alphabet_ok (n : N) : bool :=
  let c := Base64.b2a n in
  negb (Base64.skipped c) && negb (Byte.eqb c Base64.BASE64_PAD)
  && match Base64.table_a2b_base64 c with
     | Some v => N.eqb v n
     | None => false
     end
  && negb (Byte.eqb (Base64.urlsafe_encode_translation c) Base64.BASE64_PAD).

(** Every character [b2a] can give survives the two translations and
    is ASCII. *)
Definition char_ok (c : byte) : bool :=
  let c' := Base64.urlsafe_encode_translation c in
  Base64.is_ascii c' && Byte.eqb (Base64.urlsafe_decode_translation c') c.

(** What resolving chunks may change: chunk rows and files are added, and
    nothing else is touched. *)
Definition chunks_grow (s s' : state) : Prop :=
  collections (db s') = collections (db s)
  /\ items (db s') = items (db s)
  /\ revisions (db s') = revisions (db s)
  /\ relations (db s') = relations (db s)
  /\ members (db s') = members (db s)
  /\ (exists l, chunks (db s') = chunks (db s) ++ l)
  /\ (exists f, storage s' = storage s ++ f).

(** The join rows [create_relations] adds, in the order of creation. *)
Definition links (revision : CollectionItemRevision)
  (objs : list CollectionItemChunk) (old rels : list RevisionChunkRelation)
  : Prop :=
  map (fun x => (rel_revision x, rel_chunk x)) rels
    = map (fun c => (rev_id revision, chunk_id c)) objs
  /\ StronglySorted Z.lt (map rel_id rels)
  /\ Forall (fun x => forall y, In y old -> rel_id y < rel_id x) rels.

(** The revision [process_revisions_for_item] creates on a database. *)
Definition new_revision (item : CollectionItem) (rd : revision_data)
  (d : database) : CollectionItemRevision :=
  {| rev_id := next_id (map rev_id (revisions d)); rev_uid := rd_uid rd;
     rev_item := item_id item; rev_meta := rd_meta rd;
     rev_current := default_current; rev_deleted := rd_deleted rd |}.

(** The current revisions of an item among the rows [revs]. *)
Definition currents (item : Z) (revs : list CollectionItemRevision)
  : list CollectionItemRevision :=
  filter (fun r => (rev_item r =? item) && is_current r) revs.

(** Revision keys are distinct, every revision belongs to an item of the
    table, and every item has exactly one current revision. *)
Definition consistent_on (its : list CollectionItem)
  (revs : list CollectionItemRevision) : Prop :=
  NoDup (map rev_id revs)
  /\ (forall r, In r revs -> In (rev_item r) (map item_id its))
  /\ (forall i, In i its -> List.length (currents (item_id i) revs) = 1%nat).

Definition consistent (d : database) : Prop :=
  consistent_on (items d) (revisions d).

(** The statements the two [update] methods share, from the lookup of the
    current revision on. *)
Definition demote_and_build {A : Type} (item : CollectionItem)
  (rd : revision_data) (instance : A) : M A :=
  current_revision <-
    query (fun d => QuerySet.first rev_id (current_revisions (item_id item) d)) ;;
  match current_revision with
  | None => raise AttributeError
  | Some current_revision =>
      CollectionItemRevision_save (set_current current_revision None) ;;;
      process_revisions_for_item item rd ;;;
      ret instance
  end.

(** One call of a serializer, whatever it returns. *)
Inductive step : state -> state -> Prop :=
| step_item_create vd s res s' :
    CollectionItemSerializer.create vd s = (res, s') -> step s s'
| step_item_update instance vd s res s' :
    CollectionItemSerializer.update instance vd s = (res, s') -> step s s'
| step_collection_create vd s res s' :
    CollectionSerializer.create vd s = (res, s') -> step s s'
| step_collection_update instance vd s res s' :
    CollectionSerializer.update instance vd s = (res, s') -> step s s'.

(** The states any sequence of calls leads to from the empty database. *)
Inductive reachable : state -> Prop :=
| reachable_initial : reachable initial
| reachable_step s s' : reachable s -> step s s' -> reachable s'.

(** A character of the URL-safe alphabet: a letter, a digit, [-] or [_]. *)
Definition is_urlsafe (c : byte) : bool :=
  let n := Byte.to_N c in
  ((65 <=? n) && (n <=? 90) || (97 <=? n) && (n <=? 122)
   || (48 <=? n) && (n <=? 57) || (n =? 45) || (n =? 95))%N.

(** The [n]-th character of the alphabet, translated, is URL-safe. *)
Definition alphabet_urlsafe (n : N) : bool :=
  is_urlsafe (Base64.urlsafe_encode_translation (Base64.b2a n)).

(** The decoder's [quad_pos] and [leftbits] after [k] characters of the
    alphabet, [k] counted modulo 4. *)
Definition quad_phase (k : nat) : N * N :=
  match k with
  | 0%nat => (0, 0)
  | 1%nat => (1, 6)
  | 2%nat => (2, 4)
  | _ => (3, 2)
  end%N.

(** What a revision row holds apart from its [current] flag. *)
Definition revision_content (r : CollectionItemRevision)
  : Z * string * Z * bytes * bool :=
  (rev_id r, rev_uid r, rev_item r, rev_meta r, rev_deleted r).

(** Chunk rows and files are only ever added. *)
Definition chunks_kept (s s' : state) : Prop :=
  (exists l, chunks (db s') = chunks (db s) ++ l)
  /\ (exists f, storage s' = storage s ++ f).

(** A computation that only adds chunk rows and files, whatever it
    returns. *)
Definition keeps_chunks {A : Type} (m : M A) : Prop :=
  forall s res s', m s = (res, s') -> chunks_kept s s'.

(** What resolving gives for each tuple: a chunk row of the table with
    the tuple's uid and, for a tuple with content, the content as its
    stored bytes. *)
Definition resolved (s : state) (c : CollectionItemChunk) (t : chunk_tuple)
  : Prop :=
  In c (chunks (db s)) /\ chunk_uid c = fst t
  /\ forall content, snd t = Some content -> chunk_bytes s c = Some content.

(** The exceptions of the database and of [QuerySet.get]. *)
Definition storage_exception (e : exn) : Prop :=
  e = DoesNotExist \/ e = MultipleObjectsReturned \/ e = IntegrityError.

(** * Proofs *)

(** ** Examples *)

Example b64encode_hello :
  b64encode (list_byte_of_string "hello") = Ok "aGVsbG8"%string.
Proof. reflexivity. Qed.

Example b64decode_hello :
  b64decode "aGVsbG8" = Ok (list_byte_of_string "hello").
Proof. reflexivity. Qed.

Example b64encode_urlsafe :
  b64encode [xfb; xff; xfe; x3e] = Ok "-__-Pg"%string.
Proof. reflexivity. Qed.

Example b64decode_urlsafe :
  b64decode "-__-Pg" = Ok [xfb; xff; xfe; x3e].
Proof. reflexivity. Qed.

Example b64decode_bad_length : b64decode "a" = Raise BinasciiError.
Proof. reflexivity. Qed.

Example scenario_created : fst Scenario.created = Ok Scenario.item.
Proof. reflexivity. Qed.

Example scenario_updated :
  map (fun r => (rev_uid r, rev_current r))
      (revisions (db (snd Scenario.updated)))
  = [("r1"%string, None); ("r2"%string, Some true)]
  /\ map (fun x => (rel_revision x, rel_chunk x))
         (relations (db (snd Scenario.updated))) = [(1, 1); (2, 1)]
  /\ storage (snd Scenario.updated) = [(1, Scenario.hello)].
Proof. repeat split. Qed.

(** The collection of [Scenario.orphan] is not created: the second chunk
    is missing. The rows written before that are rolled back; the file of
    the first chunk stays in the storage. *)
Example scenario_orphan :
  CollectionSerializer.create Scenario.orphan initial
  = (Raise DoesNotExist,
     {| db := empty_db; storage := [(1, Scenario.hello)] |}).
Proof. reflexivity. Qed.

(** ** Checking a property of bytes by enumeration *)

Lemma all_below_spec (n : nat) (p : N -> bool) :
  all_below n p = true -> forall x, (x < N.of_nat n)%N -> p x = true.
Proof.
  induction n as [|k IH]; intros Hall x Hx.
  - lia.
  - simpl in Hall. apply andb_true_iff in Hall as [Hk Hrest].
    destruct (N.eq_dec x (N.of_nat k)) as [->|Hne]; [exact Hk|].
    apply IH; [exact Hrest | lia].
Qed.

Lemma all_bytes (p : N -> bool) :
  all_below 256 p = true -> forall x, (x < 256)%N -> p x = true.
Proof. intros H x Hx. apply (all_below_spec 256 p H). exact Hx. Qed.

Lemma all_bytes2 (p : N -> N -> bool) :
  all_below 256 (fun x => all_below 256 (p x)) = true ->
  forall x y, (x < 256)%N -> (y < 256)%N -> p x y = true.
Proof.
  intros H x y Hx Hy.
  apply (all_bytes (p x)); [|exact Hy].
  apply (all_bytes (fun x => all_below 256 (p x)) H x Hx).
Qed.

(** Closes an equation or an inequality between numbers built from one or
    two numbers below 256, by going through all of them. *)
Ltac by_enumeration :=
  first [apply N.eqb_eq | apply N.ltb_lt];
  match goal with
  | Hx : (?x < 256)%N, Hy : (?y < 256)%N |- ?b = true =>
      assert_fails (constr_eq x y);
      let b' := eval pattern x, y in b in
      match b' with
      | ?p x y =>
          apply (all_bytes2 p); [vm_compute; reflexivity | exact Hx | exact Hy]
      end
  | Hx : (?x < 256)%N |- ?b = true =>
      let b' := eval pattern x in b in
      match b' with
      | ?p x =>
          apply (all_bytes p); [vm_compute; reflexivity | exact Hx]
      end
  end.

Lemma to_N_lt (a : byte) : (Byte.to_N a < 256)%N.
Proof. pose proof (Byte.to_N_bounded a). lia. Qed.

Module Base64Facts.
Import Base64.
Local Open Scope N_scope.

Lemma byte_of_to_N (a : byte) : byte_of_N (Byte.to_N a) = a.
Proof. unfold byte_of_N. now rewrite Byte.of_to_N. Qed.

(** *** The alphabet *)

Lemma alphabet_checked : all_below 64 alphabet_ok = true.
Proof. vm_compute. reflexivity. Qed.

Lemma b2a_table (n : N) :
  n < 64 ->
  skipped (b2a n) = false /\ Byte.eqb (b2a n) BASE64_PAD = false
  /\ table_a2b_base64 (b2a n) = Some n
  /\ urlsafe_encode_translation (b2a n) <> BASE64_PAD.
Proof.
  intros Hn.
  pose proof (all_below_spec 64 alphabet_ok alphabet_checked n Hn) as H.
  unfold alphabet_ok in H.
  repeat (apply andb_true_iff in H as [H ?]).
  destruct (table_a2b_base64 (b2a n)) as [v|]; [|discriminate].
  repeat split.
  - now apply negb_true_iff.
  - now apply negb_true_iff.
  - f_equal. now apply N.eqb_eq.
  - intros E. rewrite E in *. discriminate.
Qed.

Lemma b2a_char_ok (n : N) : char_ok (b2a n) = true.
Proof.
  unfold b2a.
  destruct (nth_in_or_default (N.to_nat n) table_b2a_base64 BASE64_PAD)
    as [Hin | ->]; [|reflexivity].
  revert Hin. generalize (nth (N.to_nat n) table_b2a_base64 BASE64_PAD).
  apply forallb_forall. vm_compute. reflexivity.
Qed.

(** *** The 6-bit groups *)

Lemma sextet1_lt x : x < 256 -> sextet1 x < 64.
Proof. intros Hx. by_enumeration. Qed.

Lemma sextet2_lt x y : x < 256 -> y < 256 -> sextet2 x y < 64.
Proof. intros Hx Hy. by_enumeration. Qed.

Lemma sextet3_lt y z : y < 256 -> z < 256 -> sextet3 y z < 64.
Proof. intros Hy Hz. by_enumeration. Qed.

Lemma sextet4_lt z : z < 256 -> sextet4 z < 64.
Proof. intros Hz. by_enumeration. Qed.

(** What the decoder's shift register gives out and keeps while it reads
    the four characters of a group: after the second character the first
    byte and the high half of the second, after the third the second byte
    and the two high bits of the third, after the fourth the third. *)
Lemma first_byte x y :
  x < 256 -> y < 256 ->
  N.land (N.shiftr (N.lor (N.shiftl (N.lor (N.shiftl 0 6) (sextet1 x)) 6)
                          (sextet2 x y)) 4) 255 = x.
Proof. intros Hx Hy. by_enumeration. Qed.

Lemma first_rest x y :
  x < 256 -> y < 256 ->
  N.land (N.lor (N.shiftl (N.lor (N.shiftl 0 6) (sextet1 x)) 6)
                (sextet2 x y)) 15 = N.shiftr y 4.
Proof. intros Hx Hy. by_enumeration. Qed.

Lemma second_byte y z :
  y < 256 -> z < 256 ->
  N.land (N.shiftr (N.lor (N.shiftl (N.shiftr y 4) 6) (sextet3 y z)) 2) 255
  = y.
Proof. intros Hy Hz. by_enumeration. Qed.

Lemma second_rest y z :
  y < 256 -> z < 256 ->
  N.land (N.lor (N.shiftl (N.shiftr y 4) 6) (sextet3 y z)) 3 = N.shiftr z 6.
Proof. intros Hy Hz. by_enumeration. Qed.

Lemma third_byte z :
  z < 256 ->
  N.land (N.shiftr (N.lor (N.shiftl (N.shiftr z 6) 6) (sextet4 z)) 0) 255 = z.
Proof. intros Hz. by_enumeration. Qed.

(** *** The decoder on the characters of the alphabet *)

Lemma a2b_loop_char n quad_pos leftchar leftbits rest :
  n < 64 ->
  a2b_loop quad_pos leftchar leftbits (b2a n :: rest) =
    if 8 <=? leftbits + 6 then
      let '(out, bits) :=
        a2b_loop (N.land (quad_pos + 1) 3)
          (N.land (N.lor (N.shiftl leftchar 6) n)
                  (N.shiftl 1 (leftbits + 6 - 8) - 1))
          (leftbits + 6 - 8) rest in
      (byte_of_N (N.land (N.shiftr (N.lor (N.shiftl leftchar 6) n)
                                   (leftbits + 6 - 8)) 255) :: out, bits)
    else a2b_loop (N.land (quad_pos + 1) 3)
           (N.lor (N.shiftl leftchar 6) n) (leftbits + 6) rest.
Proof.
  intros Hn. destruct (b2a_table n Hn) as (Hs & Hp & Ht & _).
  cbn [a2b_loop]. rewrite Hs, Hp, Ht. reflexivity.
Qed.

Lemma a2b_loop_quad a b c rest :
  a2b_loop 0 0 0
    (b2a (sextet1 (Byte.to_N a))
     :: b2a (sextet2 (Byte.to_N a) (Byte.to_N b))
     :: b2a (sextet3 (Byte.to_N b) (Byte.to_N c))
     :: b2a (sextet4 (Byte.to_N c)) :: rest) =
  (a :: b :: c :: fst (a2b_loop 0 0 0 rest), snd (a2b_loop 0 0 0 rest)).
Proof.
  pose proof (to_N_lt a) as Ha. pose proof (to_N_lt b) as Hb.
  pose proof (to_N_lt c) as Hc.
  rewrite a2b_loop_char by now apply sextet1_lt.
  change (8 <=? 0 + 6) with false. cbv iota.
  rewrite a2b_loop_char by now apply sextet2_lt.
  change (8 <=? 0 + 6 + 6) with true. cbv iota.
  change (0 + 6 + 6 - 8) with 4.
  change (N.shiftl 1 4 - 1) with 15.
  rewrite first_byte, first_rest by assumption.
  rewrite a2b_loop_char by now apply sextet3_lt.
  change (8 <=? 4 + 6) with true. cbv iota.
  change (4 + 6 - 8) with 2.
  change (N.shiftl 1 2 - 1) with 3.
  rewrite second_byte, second_rest by assumption.
  rewrite a2b_loop_char by now apply sextet4_lt.
  change (8 <=? 2 + 6) with true. cbv iota.
  change (2 + 6 - 8) with 0.
  change (N.shiftl 1 0 - 1) with 0.
  rewrite third_byte by assumption.
  rewrite N.land_0_r.
  change (N.land (N.land (N.land (N.land (0 + 1) 3 + 1) 3 + 1) 3 + 1) 3)
    with 0.
  rewrite !byte_of_to_N.
  destruct (a2b_loop 0 0 0 rest). reflexivity.
Qed.

Lemma a2b_loop_one a :
  a2b_loop 0 0 0
    [b2a (sextet1 (Byte.to_N a)); b2a (sextet2 (Byte.to_N a) 0);
     BASE64_PAD; BASE64_PAD] = ([a], 0).
Proof.
  pose proof (to_N_lt a) as Ha.
  rewrite a2b_loop_char by now apply sextet1_lt.
  change (8 <=? 0 + 6) with false. cbv iota.
  rewrite a2b_loop_char by (apply sextet2_lt; [assumption | reflexivity]).
  change (8 <=? 0 + 6 + 6) with true. cbv iota.
  change (0 + 6 + 6 - 8) with 4.
  rewrite first_byte by (assumption || reflexivity).
  rewrite byte_of_to_N. reflexivity.
Qed.

Lemma a2b_loop_two a b :
  a2b_loop 0 0 0
    [b2a (sextet1 (Byte.to_N a));
     b2a (sextet2 (Byte.to_N a) (Byte.to_N b));
     b2a (sextet3 (Byte.to_N b) 0); BASE64_PAD] = ([a; b], 0).
Proof.
  pose proof (to_N_lt a) as Ha. pose proof (to_N_lt b) as Hb.
  rewrite a2b_loop_char by now apply sextet1_lt.
  change (8 <=? 0 + 6) with false. cbv iota.
  rewrite a2b_loop_char by now apply sextet2_lt.
  change (8 <=? 0 + 6 + 6) with true. cbv iota.
  change (0 + 6 + 6 - 8) with 4.
  change (N.shiftl 1 4 - 1) with 15.
  rewrite first_byte, first_rest by assumption.
  rewrite a2b_loop_char by (apply sextet3_lt; [assumption | reflexivity]).
  change (8 <=? 4 + 6) with true. cbv iota.
  change (4 + 6 - 8) with 2.
  rewrite second_byte by (assumption || reflexivity).
  rewrite !byte_of_to_N. reflexivity.
Qed.

(** Induction on a byte string, three bytes at a time. *)
Lemma bytes_ind3 (P : bytes -> Prop) :
  P [] -> (forall a, P [a]) -> (forall a b, P [a; b]) ->
  (forall a b c rest, P rest -> P (a :: b :: c :: rest)) ->
  forall l, P l.
Proof.
  intros H0 H1 H2 H3.
  assert (H : forall l, P l /\ (forall a, P (a :: l))
                        /\ (forall a b, P (a :: b :: l))).
  { induction l as [|c l (IH0 & IH1 & IH2)].
    - repeat split; auto.
    - repeat split; auto. }
  intros l. apply H.
Qed.

Lemma a2b_b2a (data : bytes) : a2b_loop 0 0 0 (b2a_base64 data) = (data, 0).
Proof.
  induction data as [| a | a b | a b c rest IH] using bytes_ind3.
  - reflexivity.
  - apply a2b_loop_one.
  - apply a2b_loop_two.
  - cbn [b2a_base64]. rewrite a2b_loop_quad, IH. reflexivity.
Qed.

End Base64Facts.

(** ** The text of [b64encode] *)

Module CodecFacts.
Import Base64 Base64Facts.
Local Open Scope nat_scope.

Lemma b2a_base64_chars (data : bytes) :
  Forall (fun c => char_ok c = true) (b2a_base64 data).
Proof.
  induction data as [| a | a b | a b c rest IH] using bytes_ind3;
    cbn [b2a_base64]; repeat constructor;
    try apply b2a_char_ok; try exact IH.
Qed.

Lemma urlsafe_b64encode_ascii (data : bytes) :
  forallb is_ascii (urlsafe_b64encode data) = true.
Proof.
  unfold urlsafe_b64encode.
  induction (b2a_base64_chars data) as [|c l Hc _ IH]; [reflexivity|].
  cbn [map forallb]. rewrite IH.
  unfold char_ok in Hc. apply andb_true_iff in Hc as [-> _]. reflexivity.
Qed.

Lemma urlsafe_translations (data : bytes) :
  map urlsafe_decode_translation (urlsafe_b64encode data) = b2a_base64 data.
Proof.
  unfold urlsafe_b64encode.
  induction (b2a_base64_chars data) as [|c l Hc _ IH]; [reflexivity|].
  cbn [map]. rewrite IH. f_equal.
  unfold char_ok in Hc. apply andb_true_iff in Hc as [_ Hc].
  now apply Byte.byte_dec_bl.
Qed.

(** The encoding is a run of characters other than [=] followed by the
    padding, which fills the last group of four. *)
Lemma urlsafe_b64encode_shape (data : bytes) :
  exists (text : bytes) (pad : nat),
    urlsafe_b64encode data = text ++ repeat BASE64_PAD pad
    /\ Forall (fun c => c <> BASE64_PAD) text
    /\ pad < 4 /\ (List.length text + pad) mod 4 = 0.
Proof.
  unfold urlsafe_b64encode.
  induction data as [| a | a b | a b c rest IH] using bytes_ind3.
  - exists [], 0. repeat split; [constructor | lia].
  - pose proof (to_N_lt a).
    eexists [_; _], 2. cbn [b2a_base64 map app repeat].
    repeat split; [| lia].
    repeat constructor; apply b2a_table;
      [now apply sextet1_lt | now apply sextet2_lt].
  - pose proof (to_N_lt a). pose proof (to_N_lt b).
    eexists [_; _; _], 1. cbn [b2a_base64 map app repeat].
    repeat split; [| lia].
    repeat constructor; apply b2a_table;
      [now apply sextet1_lt | now apply sextet2_lt | now apply sextet3_lt].
  - pose proof (to_N_lt a). pose proof (to_N_lt b). pose proof (to_N_lt c).
    destruct IH as (text & pad & E & Htext & Hpad & Hlen).
    eexists (_ :: _ :: _ :: _ :: text), pad.
    cbn [b2a_base64 map app]. rewrite E.
    repeat split; [| exact Hpad |].
    + repeat (constructor; [apply b2a_table|]);
        [now apply sextet1_lt | now apply sextet2_lt | now apply sextet3_lt
        | now apply sextet4_lt | exact Htext].
    + cbn [List.length].
      replace (S (S (S (S (List.length text)))) + pad)
        with (List.length text + pad + 1 * 4) by lia.
      now rewrite Nat.Div0.mod_add.
Qed.

(** *** [str] operations on converted byte strings *)

Lemma ascii_of_pad (c : byte) :
  c <> BASE64_PAD -> Ascii.eqb (ascii_of_byte c) "=" = false.
Proof.
  intros Hc. apply Ascii.eqb_neq. intros E. apply Hc.
  rewrite <- (byte_of_ascii_of_byte c), E. reflexivity.
Qed.

Lemma string_of_list_byte_cons (c : byte) (l : bytes) :
  string_of_list_byte (c :: l)
  = String (ascii_of_byte c) (string_of_list_byte l).
Proof. reflexivity. Qed.

Lemma string_of_pads (n : nat) :
  string_of_list_byte (repeat BASE64_PAD n) = str_repeat "=" n.
Proof.
  induction n as [|n IH]; [reflexivity|].
  cbn [repeat str_repeat]. rewrite string_of_list_byte_cons, IH. reflexivity.
Qed.

Lemma string_of_list_byte_app (l1 l2 : bytes) :
  string_of_list_byte (l1 ++ l2)
  = (string_of_list_byte l1 ++ string_of_list_byte l2)%string.
Proof.
  induction l1 as [|c l1 IH]; [reflexivity|].
  cbn [app]. rewrite !string_of_list_byte_cons, IH. reflexivity.
Qed.

Lemma string_of_list_byte_length (l : bytes) :
  String.length (string_of_list_byte l) = List.length l.
Proof.
  induction l as [|c l IH]; [reflexivity|].
  rewrite string_of_list_byte_cons. cbn [String.length List.length]. now rewrite IH.
Qed.

Lemma rstrip_pads (n : nat) : rstrip "=" (str_repeat "=" n) = EmptyString.
Proof.
  induction n as [|n IH]; [reflexivity|].
  cbn [str_repeat rstrip]. rewrite IH. reflexivity.
Qed.

Lemma rstrip_text_pads (text : bytes) (n : nat) :
  Forall (fun c => c <> BASE64_PAD) text ->
  rstrip "=" (string_of_list_byte text ++ str_repeat "=" n)
  = string_of_list_byte text.
Proof.
  induction 1 as [|c l Hc _ IH].
  - apply rstrip_pads.
  - rewrite string_of_list_byte_cons. cbn [String.append rstrip].
    rewrite IH, (ascii_of_pad c Hc).
    now destruct (string_of_list_byte l).
Qed.

Lemma lstrip_pads (n : nat) : lstrip "=" (str_repeat "=" n) = EmptyString.
Proof. induction n as [|n IH]; [reflexivity | exact IH]. Qed.

Lemma strip_text_pads (text : bytes) (n : nat) :
  Forall (fun c => c <> BASE64_PAD) text ->
  strip "=" (string_of_list_byte (text ++ repeat BASE64_PAD n))
  = string_of_list_byte text.
Proof.
  intros Htext. unfold strip.
  rewrite string_of_list_byte_app, string_of_pads.
  destruct Htext as [|c l Hc Hl].
  - cbn [string_of_list_byte String.append]. change (string_of_list_byte []) with EmptyString.
    cbn [String.append]. now rewrite lstrip_pads.
  - rewrite string_of_list_byte_cons. cbn [String.append lstrip].
    rewrite (ascii_of_pad c Hc).
    change (String (ascii_of_byte c)
              (string_of_list_byte l ++ str_repeat "=" n))
      with (String (ascii_of_byte c) (string_of_list_byte l)
            ++ str_repeat "=" n)%string.
    rewrite <- string_of_list_byte_cons.
    apply rstrip_text_pads. now constructor.
Qed.

Lemma no_pad_in_text (text : bytes) :
  Forall (fun c => c <> BASE64_PAD) text ->
  ~ In "="%char (list_ascii_of_string (string_of_list_byte text)).
Proof.
  induction 1 as [|c l Hc _ IH]; [intros []|].
  rewrite string_of_list_byte_cons. cbn [list_ascii_of_string In].
  intros [E | Hin]; [|now apply IH].
  apply ascii_of_pad in Hc. rewrite E in Hc. discriminate.
Qed.

(** What [b64encode] returns and what [b64decode] makes of it. *)
Lemma b64encode_b64decode (value : bytes) :
  exists text : bytes,
    Forall (fun c => c <> BASE64_PAD) text
    /\ b64encode value = Ok (string_of_list_byte text)
    /\ b64decode (string_of_list_byte text) = Ok value.
Proof.
  destruct (urlsafe_b64encode_shape value)
    as (text & pad & E & Htext & Hpad & Hlen).
  exists text. split; [exact Htext|]. split.
  - unfold b64encode, decode_ascii.
    rewrite urlsafe_b64encode_ascii, E. f_equal.
    now apply strip_text_pads.
  - unfold b64decode. rewrite string_of_list_byte_length.
    replace ((4 - List.length text mod 4) mod 4) with pad.
    + rewrite <- string_of_pads, <- string_of_list_byte_app, <- E.
      unfold urlsafe_b64decode, bytes_from_decode_types.
      rewrite list_byte_of_string_of_list_byte, urlsafe_b64encode_ascii.
      rewrite urlsafe_translations. unfold a2b_base64.
      rewrite a2b_b2a. reflexivity.
    + pose proof (Nat.div_mod_eq (List.length text + pad) 4) as D.
      pose proof (Nat.div_mod_eq (List.length text) 4) as D'.
      pose proof (Nat.mod_upper_bound (List.length text) 4 ltac:(lia)) as B.
      rewrite Hlen in D.
      assert (List.length text mod 4 + pad = 0 \/ List.length text mod 4 + pad = 4)
        as [C|C] by lia.
      * replace pad with 0 by lia. replace (List.length text mod 4) with 0 by lia.
        reflexivity.
      * replace (4 - List.length text mod 4) with pad by lia.
        now rewrite Nat.mod_small.
Qed.

End CodecFacts.

(** ** Rows and primary keys *)

Lemma next_id_above (ids : list Z) : forall x, In x ids -> x < next_id ids.
Proof.
  unfold next_id. induction ids as [|y ids IH]; intros x [].
  - subst. cbn [fold_right]. lia.
  - cbn [fold_right]. specialize (IH x H). lia.
Qed.

Lemma next_id_fresh (ids : list Z) : ~ In (next_id ids) ids.
Proof. intros H. apply next_id_above in H. lia. Qed.

Section RowFacts.
Context {A : Type} (pk : A -> Z).

Lemma has_pk_In (r : A) (l : list A) : In r l -> has_pk pk (pk r) l = true.
Proof.
  intros H. apply existsb_exists. exists r. split; [exact H | apply Z.eqb_refl].
Qed.

Lemma map_pk_replace_row (r : A) (l : list A) :
  map pk (replace_row pk r l) = map pk l.
Proof.
  unfold replace_row. rewrite map_map. apply map_ext_in. intros x _.
  destruct (Z.eqb_spec (pk x) (pk r)); congruence.
Qed.

Lemma replace_row_other (r : A) (l : list A) :
  ~ In (pk r) (map pk l) -> replace_row pk r l = l.
Proof.
  intros H. unfold replace_row. rewrite <- (map_id l) at 2.
  apply map_ext_in. intros x Hx.
  destruct (Z.eqb_spec (pk x) (pk r)) as [E|]; [|reflexivity].
  exfalso. apply H. rewrite <- E. now apply in_map.
Qed.

Lemma save_row_inserted (r : A) (l : list A) :
  ~ In (pk r) (map pk l) -> save_row pk r (l ++ [r]) = l ++ [r].
Proof.
  intros H. unfold save_row.
  rewrite has_pk_In by (apply in_or_app; right; now left).
  unfold replace_row. rewrite map_app. cbn [map]. rewrite Z.eqb_refl.
  f_equal. now apply replace_row_other.
Qed.

Lemma In_replace_row (r x : A) (l : list A) :
  In x (replace_row pk r l) -> x = r \/ In x l.
Proof.
  unfold replace_row. rewrite in_map_iff. intros (y & E & Hy).
  destruct (pk y =? pk r); subst; auto.
Qed.

Lemma In_save_row (r : A) (l : list A) : In r (save_row pk r l).
Proof.
  unfold save_row. destruct (has_pk pk (pk r) l) eqn:E.
  - apply existsb_exists in E as (x & Hx & Hpk).
    unfold replace_row. apply in_map_iff. exists x. now rewrite Hpk.
  - apply in_or_app. right. now left.
Qed.

Lemma NoDup_pk_eq (l : list A) (x y : A) :
  NoDup (map pk l) -> In x l -> In y l -> pk x = pk y -> x = y.
Proof.
  induction l as [|z l IH]; intros Hnd Hx Hy E; [destruct Hx|].
  cbn [map] in Hnd. inversion Hnd as [|? ? Hz Hnd']; subst.
  destruct Hx as [<-|Hx], Hy as [<-|Hy]; auto.
  - exfalso. apply Hz. rewrite E. now apply in_map.
  - exfalso. apply Hz. rewrite <- E. now apply in_map.
Qed.

Lemma filter_replace_row (f : A -> bool) (r : A) (l : list A) :
  f r = false -> (forall x, In x l -> pk x = pk r -> f x = false) ->
  filter f (replace_row pk r l) = filter f l.
Proof.
  intros Hr Hl. unfold replace_row.
  induction l as [|x l IH]; [reflexivity|].
  cbn [map filter]. rewrite IH by (intros; apply Hl; [now right | assumption]).
  destruct (Z.eqb_spec (pk x) (pk r)) as [E|]; [|reflexivity].
  rewrite Hr, (Hl x (or_introl eq_refl) E). reflexivity.
Qed.

(** *** [first], [last] and [get] *)

Lemma first_None (l : list A) : QuerySet.first pk l = None -> l = [].
Proof.
  destruct l as [|x l]; [reflexivity|]. cbn.
  destruct (fold_right _ None l); [destruct (_ <? _)|]; discriminate.
Qed.

Lemma first_In (l : list A) (r : A) : QuerySet.first pk l = Some r -> In r l.
Proof.
  revert r. induction l as [|x l IH]; intros r; [discriminate|].
  cbn. fold (QuerySet.first pk l).
  destruct (QuerySet.first pk l) as [a|].
  - destruct (pk a <? pk x); intros [= <-]; [right; now apply IH | now left].
  - intros [= <-]. now left.
Qed.

Lemma last_None (l : list A) : QuerySet.last pk l = None <-> l = [].
Proof.
  split; [| now intros ->].
  destruct l as [|x l]; [reflexivity|]. cbn.
  destruct (fold_right _ None l); [destruct (_ <? _)|]; discriminate.
Qed.

Lemma last_greatest (l : list A) (r : A) :
  QuerySet.last pk l = Some r ->
  In r l /\ forall x, In x l -> pk x <= pk r.
Proof.
  revert r. induction l as [|x l IH]; intros r; [discriminate|].
  cbn. fold (QuerySet.last pk l).
  destruct (QuerySet.last pk l) as [a|] eqn:E.
  - destruct (IH a eq_refl) as [Ha Hmax].
    destruct (Z.ltb_spec (pk x) (pk a)); intros [= <-].
    + split; [now right|]. intros y [<-|Hy]; [lia | now apply Hmax].
    + split; [now left|]. intros y [<-|Hy]; [lia|].
      specialize (Hmax y Hy). lia.
  - intros [= <-]. apply last_None in E. subst.
    split; [now left|]. intros y [<-|[]]. lia.
Qed.

Lemma last_app (l : list A) (r : A) :
  (forall x, In x l -> pk x < pk r) -> QuerySet.last pk (l ++ [r]) = Some r.
Proof.
  induction l as [|x l IH]; intros H; [reflexivity|].
  cbn. fold (QuerySet.last pk (l ++ [r])).
  rewrite IH by (intros; apply H; now right).
  destruct (Z.ltb_spec (pk x) (pk r)); [reflexivity|].
  specialize (H x (or_introl eq_refl)). lia.
Qed.
End RowFacts.

(** ** The monad *)

Lemma bind_Ok {A B} (m : M A) (k : A -> M B) s b s' :
  bind m k s = (Ok b, s') ->
  exists a s1, m s = (Ok a, s1) /\ k a s1 = (Ok b, s').
Proof.
  unfold bind. destruct (m s) as [[a|e] s1]; [eauto | discriminate].
Qed.

Lemma bind_Raise {A B} (m : M A) (k : A -> M B) s e s' :
  bind m k s = (Raise e, s') ->
  m s = (Raise e, s') \/ exists a s1, m s = (Ok a, s1) /\ k a s1 = (Raise e, s').
Proof.
  unfold bind. destruct (m s) as [[a|e1] s1]; [eauto|].
  intros [= -> ->]. now left.
Qed.

Lemma atomic_Ok {A} (body : M A) s a s' :
  atomic body s = (Ok a, s') -> body s = (Ok a, s').
Proof.
  unfold atomic. destruct (body s) as [[a1|e] s1]; [trivial | discriminate].
Qed.

Lemma atomic_Raise {A} (body : M A) s e s' :
  atomic body s = (Raise e, s') -> db s' = db s.
Proof.
  unfold atomic. destruct (body s) as [[a1|e1] s1]; [discriminate|].
  now intros [= _ <-].
Qed.

Lemma state_eta (s : state) : {| db := db s; storage := storage s |} = s.
Proof. now destruct s. Qed.

(** ** The revision builder *)

Lemma chunks_grow_refl (s : state) : chunks_grow s s.
Proof.
  unfold chunks_grow. repeat split; try reflexivity;
    exists []; now rewrite app_nil_r.
Qed.

Lemma chunks_grow_trans (s1 s2 s3 : state) :
  chunks_grow s1 s2 -> chunks_grow s2 s3 -> chunks_grow s1 s3.
Proof.
  intros (A1 & A2 & A3 & A4 & A5 & [l1 A6] & [f1 A7])
         (B1 & B2 & B3 & B4 & B5 & [l2 B6] & [f2 B7]).
  unfold chunks_grow. repeat split; try congruence.
  - exists (l1 ++ l2). now rewrite B6, A6, app_assoc.
  - exists (f1 ++ f2). now rewrite B7, A7, app_assoc.
Qed.

Lemma chunks_grow_In (s s' : state) (c : CollectionItemChunk) :
  chunks_grow s s' -> In c (chunks (db s)) -> In c (chunks (db s')).
Proof.
  intros (_ & _ & _ & _ & _ & [l E] & _) H. rewrite E.
  apply in_or_app. now left.
Qed.

Lemma storage_open_app (name : Z) (st f : file_storage) (b : bytes) :
  storage_open name st = Some b -> storage_open name (st ++ f) = Some b.
Proof.
  unfold storage_open. induction st as [|x st IH]; [discriminate|].
  cbn [app find]. destruct (fst x =? name); [trivial | exact IH].
Qed.

Lemma chunks_grow_bytes (s s' : state) (c : CollectionItemChunk) (b : bytes) :
  chunks_grow s s' -> chunk_bytes s c = Some b -> chunk_bytes s' c = Some b.
Proof.
  intros (_ & _ & _ & _ & _ & _ & [f E]) H. unfold chunk_bytes in *.
  rewrite E. now apply storage_open_app.
Qed.

Lemma chunk_uid_taken_inserted (c : CollectionItemChunk) l :
  chunk_uid_taken c l = false -> chunk_uid_taken c (l ++ [c]) = false.
Proof.
  intros H. unfold chunk_uid_taken in *. rewrite existsb_app, H.
  cbn [existsb]. now rewrite Z.eqb_refl.
Qed.

(** A new chunk: the file is written and the row is added, unless the uid
    is taken. *)
Lemma resolve_chunk_new (item : CollectionItem) uid content (s : state) :
  let name := next_id (map fst (storage s)) in
  let c := {| chunk_id := next_id (map chunk_id (chunks (db s)));
              chunk_uid := uid; chunk_item := item_id item;
              chunk_chunkFile := name |} in
  let s1 := {| db := db s; storage := storage s ++ [(name, content)] |} in
  resolve_chunk item (uid, Some content) s =
    if chunk_uid_taken c (chunks (db s)) then (Raise IntegrityError, s1)
    else (Ok c, {| db := set_chunks (db s) (chunks (db s) ++ [c]);
                   storage := storage s1 |}).
Proof.
  intros name c s1.
  unfold resolve_chunk, bind, storage_save, CollectionItemChunk_insert,
    CollectionItemChunk_save, write, ret.
  cbn [fst snd db storage]. fold name. fold c.
  destruct (chunk_uid_taken c (chunks (db s))) eqn:E; [reflexivity|].
  cbn [db chunks set_chunks storage].
  rewrite (chunk_uid_taken_inserted c _ E).
  rewrite save_row_inserted by apply next_id_fresh.
  reflexivity.
Qed.

Lemma resolve_chunk_spec (item : CollectionItem) (chunk : chunk_tuple) s res s' :
  resolve_chunk item chunk s = (res, s') ->
  chunks_grow s s'
  /\ forall c, res = Ok c -> chunk_uid c = fst chunk /\ In c (chunks (db s')).
Proof.
  destruct chunk as [uid [content|]].
  - rewrite resolve_chunk_new.
    destruct (chunk_uid_taken _ _); intros [= <- <-]; (split; [| intros c [= <-]]).
    + unfold chunks_grow. cbn. repeat split; eauto. exists []. now rewrite app_nil_r.
    + unfold chunks_grow. cbn. repeat split; eauto.
    + cbn. split; [reflexivity|]. apply in_or_app. right. now left.
  - unfold resolve_chunk, bind, query. cbn [fst snd].
    destruct (QuerySet.get _) as [c|e] eqn:E; unfold ret, raise;
      intros [= <- <-]; (split; [apply chunks_grow_refl | intros c0 [= <-]]).
    unfold QuerySet.get in E.
    destruct (filter _ _) as [|c1 [|c2 l]] eqn:F; try discriminate.
    injection E as ->.
    assert (H : In c (filter (fun x => String.eqb (chunk_uid x) uid)
                        (chunks (db s)))) by (rewrite F; now left).
    apply filter_In in H as [H1 H2]. apply String.eqb_eq in H2. now split.
Qed.

Lemma resolve_chunks_spec (item : CollectionItem) (l : list chunk_tuple) :
  forall s res s',
    resolve_chunks item l s = (res, s') ->
    chunks_grow s s'
    /\ forall objs, res = Ok objs ->
         map chunk_uid objs = map fst l
         /\ Forall (fun c => In c (chunks (db s'))) objs.
Proof.
  induction l as [|chunk rest IH]; intros s res s' H.
  - injection H as <- <-. split; [apply chunks_grow_refl|].
    intros objs [= <-]. now split.
  - cbn [resolve_chunks] in H. unfold bind at 1 in H.
    destruct (resolve_chunk item chunk s) as [[c|e] s1] eqn:E1.
    + apply resolve_chunk_spec in E1 as [G1 Hc]. specialize (Hc c eq_refl).
      unfold bind in H.
      destruct (resolve_chunks item rest s1) as [[objs|e] s2] eqn:E2;
        apply IH in E2 as [G2 Hobjs]; injection H as <- <-;
        (split; [now apply (chunks_grow_trans s s1) | intros ? [= <-]]).
      destruct (Hobjs objs eq_refl) as [Hu Hin]. destruct Hc as [Hcu Hcin].
      cbn [map]. split; [congruence|].
      constructor; [now apply (chunks_grow_In s1) | exact Hin].
    + apply resolve_chunk_spec in E1 as [G1 _]. injection H as <- <-.
      split; [exact G1 | discriminate].
Qed.

Lemma create_relations_spec (revision : CollectionItemRevision)
  (objs : list CollectionItemChunk) :
  forall s, exists rels,
    create_relations revision objs s
      = (Ok tt, {| db := set_relations (db s) (relations (db s) ++ rels);
                   storage := storage s |})
    /\ links revision objs (relations (db s)) rels.
Proof.
  induction objs as [|c objs IH]; intros s.
  - exists []. cbn [create_relations]. unfold ret. rewrite app_nil_r.
    split; [| repeat constructor].
    destruct s as [[] ?]; reflexivity.
  - cbn [create_relations]. unfold bind, RevisionChunkRelation_insert, write.
    set (x := {| rel_id := next_id (map rel_id (relations (db s)));
                 rel_chunk := chunk_id c; rel_revision := rev_id revision |}).
    set (s1 := {| db := set_relations (db s) (relations (db s) ++ [x]);
                  storage := storage s |}).
    destruct (IH s1) as (rels & E & L1 & L2 & L3).
    exists (x :: rels). rewrite E. subst s1. cbn [db storage relations set_relations
      collections items chunks revisions members].
    rewrite <- app_assoc. split; [reflexivity|].
    assert (Hx : forall y, In y (relations (db s)) -> rel_id y < rel_id x).
    { intros y Hy. apply next_id_above. now apply in_map. }
    cbn [db relations set_relations] in L3.
    repeat split.
    + cbn [map]. now rewrite L1.
    + cbn [map]. constructor; [exact L2|].
      rewrite Forall_map. eapply Forall_impl; [|exact L3].
      intros r Hr. apply Hr. apply in_or_app. right. now left.
    + constructor; [exact Hx|].
      eapply Forall_impl; [|exact L3].
      intros r Hr y Hy. apply Hr. apply in_or_app. now left.
Qed.

Lemma process_revisions_for_item_Ok (item : CollectionItem)
  (rd : revision_data) s r s' :
  process_revisions_for_item item rd s = (Ok r, s') ->
  exists objs s1 rels,
    resolve_chunks item (chunks_relation rd) s = (Ok objs, s1)
    /\ r = new_revision item rd (db s)
    /\ current_taken r (revisions (db s)) = false
    /\ s' = {| db := set_relations
                       (set_revisions (db s1) (revisions (db s) ++ [r]))
                       (relations (db s) ++ rels);
               storage := storage s1 |}
    /\ links r objs (relations (db s)) rels.
Proof.
  unfold process_revisions_for_item. intros H.
  apply bind_Ok in H as (objs & s1 & E1 & H).
  apply bind_Ok in H as (r1 & s2 & E2 & H).
  apply bind_Ok in H as ([] & s3 & E3 & H).
  injection H as -> ->.
  destruct (resolve_chunks_spec _ _ _ _ _ E1) as [(G1 & G2 & G3 & G4 & G5 & _) _].
  unfold CollectionItemRevision_insert, write in E2. rewrite G3 in E2.
  fold (new_revision item rd (db s)) in E2.
  destruct (current_taken _ _) eqn:T; [discriminate|].
  injection E2 as <- <-.
  destruct (create_relations_spec (new_revision item rd (db s)) objs
              {| db := set_revisions (db s1)
                         (revisions (db s) ++ [new_revision item rd (db s)]);
                 storage := storage s1 |}) as (rels & E & L).
  rewrite E in E3. injection E3 as <-.
  cbn [db storage relations set_revisions] in *. rewrite G4 in *.
  exists objs, s1, rels.
  split; [exact E1|]. split; [reflexivity|]. split; [exact T|].
  split; [reflexivity | exact L].
Qed.

(** ** One current revision per item *)

Lemma currents_app item l1 l2 :
  currents item (l1 ++ l2) = currents item l1 ++ currents item l2.
Proof. apply filter_app. Qed.

Lemma currents_nil item revs :
  (forall r, In r revs -> rev_item r = item -> is_current r = false) ->
  currents item revs = [].
Proof.
  intros H. unfold currents.
  induction revs as [|r revs IH]; [reflexivity|].
  cbn [filter]. rewrite IH by (intros; apply H; [now right | assumption]).
  destruct (Z.eqb_spec (rev_item r) item) as [E|]; [|reflexivity].
  now rewrite (H r (or_introl eq_refl) E).
Qed.

Lemma NoDup_snoc_fresh (ids : list Z) : NoDup ids -> NoDup (ids ++ [next_id ids]).
Proof.
  intros H. apply NoDup_app; [exact H | repeat constructor; intros [] |].
  intros x Hx [<-|[]]. now apply next_id_fresh in Hx.
Qed.

(** A first revision for a new item. *)
Lemma consistent_create its revs (i : CollectionItem)
  (r : CollectionItemRevision) :
  consistent_on its revs ->
  item_id i = next_id (map item_id its) ->
  rev_id r = next_id (map rev_id revs) ->
  rev_item r = item_id i -> is_current r = true ->
  consistent_on (its ++ [i]) (revs ++ [r]).
Proof.
  intros (Hnd & Hfk & Hone) Hi Hr Hitem Hcur. repeat split.
  - rewrite map_app. cbn [map]. rewrite Hr. now apply NoDup_snoc_fresh.
  - intros r0 H0. rewrite map_app. apply in_or_app.
    apply in_app_or in H0 as [H0|[<-|[]]]; [left; now apply Hfk|].
    right. rewrite Hitem. now left.
  - intros i0 H0. rewrite currents_app.
    apply in_app_or in H0 as [H0|[<-|[]]].
    + assert (item_id i0 <> item_id i).
      { rewrite Hi. intros E. apply (next_id_fresh (map item_id its)).
        rewrite <- E. now apply in_map. }
      rewrite length_app, (Hone i0 H0). unfold currents. cbn [filter].
      rewrite Hitem. destruct (Z.eqb_spec (item_id i) (item_id i0)); [congruence|].
      reflexivity.
    + rewrite currents_nil.
      * unfold currents. cbn [filter]. now rewrite Hitem, Z.eqb_refl, Hcur.
      * intros r0 H0 E. exfalso. apply (next_id_fresh (map item_id its)).
        rewrite <- Hi, <- E. now apply Hfk.
Qed.

Lemma is_current_same (r : CollectionItemRevision) :
  same_current (rev_current r) (Some true) = is_current r.
Proof. unfold is_current. now destruct (rev_current r) as [[]|]. Qed.

(** The constraint on [(item, current)] has let a current revision of
    [item] with a key of its own in: no row of the item is current. *)
Lemma currents_free item revs (r : CollectionItemRevision) :
  rev_item r = item -> rev_current r = Some true ->
  (forall x, In x revs -> rev_id x <> rev_id r) ->
  current_taken r revs = false ->
  currents item revs = [].
Proof.
  intros Hitem Hcur Hfresh Htaken. apply currents_nil. intros x Hx E.
  rewrite <- is_current_same, <- Hcur.
  destruct (same_current (rev_current x) (rev_current r)) eqn:S;
    [|reflexivity].
  exfalso. unfold current_taken in Htaken.
  rewrite (proj2 (existsb_exists _ revs)) in Htaken; [discriminate|].
  exists x. split; [exact Hx|].
  rewrite S, Hitem, E, Z.eqb_refl.
  now rewrite (proj2 (Z.eqb_neq _ _) (Hfresh x Hx)).
Qed.

(** A new revision after the current one was demoted. *)
Lemma consistent_supersede its revs (cr r : CollectionItemRevision) :
  let revs1 := replace_row rev_id (set_current cr None) revs in
  consistent_on its revs ->
  In cr revs ->
  rev_id r = next_id (map rev_id revs) ->
  rev_item r = rev_item cr -> rev_current r = Some true ->
  current_taken r revs1 = false ->
  consistent_on its (revs1 ++ [r]).
Proof.
  intros revs1 (Hnd & Hfk & Hone) Hcr Hr Hitem Hcur Htaken.
  assert (Hids : map rev_id revs1 = map rev_id revs)
    by apply (map_pk_replace_row rev_id).
  assert (Hnone : currents (rev_item cr) revs1 = []).
  { apply (currents_free _ _ r Hitem Hcur); [|exact Htaken].
    intros x Hx E. apply (next_id_fresh (map rev_id revs)).
    rewrite <- Hr, <- E, <- Hids. now apply in_map. }
  repeat split.
  - rewrite map_app, Hids. cbn [map]. rewrite Hr. now apply NoDup_snoc_fresh.
  - intros r0 H0. apply in_app_or in H0 as [H0|[<-|[]]].
    + apply In_replace_row in H0 as [->|H0];
        [exact (Hfk cr Hcr) | now apply Hfk].
    + rewrite Hitem. now apply Hfk.
  - intros i Hi. rewrite currents_app, length_app.
    destruct (Z.eq_dec (item_id i) (rev_item cr)) as [E|NE].
    + rewrite E, Hnone. unfold currents, is_current. cbn [filter].
      now rewrite Hitem, Z.eqb_refl, Hcur.
    + unfold currents at 1. unfold revs1. rewrite filter_replace_row.
      * fold (currents (item_id i) revs). rewrite (Hone i Hi).
        unfold currents. cbn [filter]. rewrite Hitem.
        destruct (Z.eqb_spec (rev_item cr) (item_id i)); [congruence|reflexivity].
      * cbn [set_current rev_item].
        destruct (Z.eqb_spec (rev_item cr) (item_id i)); [congruence|reflexivity].
      * intros x Hx Epk. cbn [set_current rev_id] in Epk.
        rewrite (NoDup_pk_eq rev_id revs x cr Hnd Hx Hcr Epk).
        destruct (Z.eqb_spec (rev_item cr) (item_id i)); [congruence|reflexivity].
Qed.

Lemma item_update_body instance vd :
  CollectionItemSerializer.update instance vd
  = atomic (demote_and_build instance
              (CollectionItemSerializer.content vd) instance).
Proof. reflexivity. Qed.

Lemma collection_update_body instance vd :
  CollectionSerializer.update instance vd
  = atomic (main_item <- CollectionSerializer.mainItem instance ;;
            match main_item with
            | None => raise AttributeError
            | Some main_item =>
                demote_and_build main_item
                  (CollectionSerializer.content vd) instance
            end).
Proof. reflexivity. Qed.

Lemma process_revisions_for_item_tables item rd s r s' :
  process_revisions_for_item item rd s = (Ok r, s') ->
  r = new_revision item rd (db s)
  /\ current_taken r (revisions (db s)) = false
  /\ collections (db s') = collections (db s)
  /\ items (db s') = items (db s)
  /\ members (db s') = members (db s)
  /\ revisions (db s') = revisions (db s) ++ [r].
Proof.
  intros H.
  apply process_revisions_for_item_Ok in H
    as (objs & s1 & rels & E1 & -> & T & -> & _).
  apply resolve_chunks_spec in E1 as [(G1 & G2 & G3 & G4 & G5 & _) _].
  cbn. repeat split; assumption || reflexivity.
Qed.

Lemma current_taken_None (r : CollectionItemRevision) revs :
  current_taken (set_current r None) revs = false.
Proof.
  unfold current_taken. induction revs as [|x revs IH]; [reflexivity|].
  cbn [existsb]. rewrite IH, orb_false_r.
  cbn [set_current rev_current]. unfold same_current.
  destruct (rev_current x); apply andb_false_r.
Qed.

Lemma demote_and_build_Ok {A} item rd (instance : A) s a s' :
  demote_and_build item rd instance s = (Ok a, s') ->
  exists cr r,
    let revs1 :=
      replace_row rev_id (set_current cr None) (revisions (db s)) in
    In cr (revisions (db s)) /\ rev_item cr = item_id item
    /\ rev_id r = next_id (map rev_id (revisions (db s)))
    /\ rev_item r = rev_item cr /\ rev_current r = Some true
    /\ rev_uid r = rd_uid rd
    /\ current_taken r revs1 = false
    /\ items (db s') = items (db s)
    /\ revisions (db s') = revs1 ++ [r].
Proof.
  unfold demote_and_build. intros H.
  apply bind_Ok in H as (found & s0 & Q & H).
  unfold query in Q. injection Q as <- <-.
  destruct (QuerySet.first _ _) as [cr|] eqn:F; [|discriminate].
  apply first_In in F. unfold current_revisions in F.
  apply filter_In in F as [Hcr Hp]. apply andb_true_iff in Hp as [Hp _].
  apply Z.eqb_eq in Hp.
  apply bind_Ok in H as ([] & s1 & S & H).
  unfold CollectionItemRevision_save, write in S.
  rewrite current_taken_None in S. unfold save_row in S.
  assert (Hpk : has_pk rev_id (rev_id (set_current cr None))
                  (revisions (db s)) = true)
    by (apply existsb_exists; exists cr; split; [exact Hcr | apply Z.eqb_refl]).
  rewrite Hpk in S. injection S as <-.
  apply bind_Ok in H as (r & s2 & P & H). injection H as _ <-.
  apply process_revisions_for_item_tables in P
    as (-> & T & _ & I & _ & R).
  cbn [db revisions items set_revisions] in *.
  eexists cr, _. cbv zeta.
  split; [exact Hcr|]. split; [exact Hp|].
  split; [| split; [| split; [| split;
    [| split; [exact T | split; [exact I | exact R]]]]]].
  - cbn [new_revision rev_id db revisions set_revisions].
    now rewrite (map_pk_replace_row rev_id).
  - cbn [new_revision rev_item]. now rewrite Hp.
  - reflexivity.
  - reflexivity.
Qed.

(** After a successful [update] the current revision of the item is the
    one the call has built. *)
Lemma demote_and_build_current {A} item rd (instance : A) s a s' :
  demote_and_build item rd instance s = (Ok a, s') ->
  exists r,
    current_revisions (item_id item) (db s') = [r]
    /\ rev_uid r = rd_uid rd.
Proof.
  intros H.
  apply demote_and_build_Ok in H
    as (cr & r & Hcr & Hp & Hid & Hitem & Hcur & Huid & T & I & R).
  exists r. split; [|exact Huid].
  change (current_revisions (item_id item) (db s'))
    with (currents (item_id item) (revisions (db s'))).
  rewrite R, currents_app, <- Hp.
  rewrite (currents_free _ _ r Hitem Hcur); [| |exact T].
  - unfold currents, is_current. cbn [filter app].
    now rewrite Hitem, Z.eqb_refl, Hcur.
  - intros x Hx E. apply (next_id_fresh (map rev_id (revisions (db s)))).
    rewrite <- Hid, <- E, <- (map_pk_replace_row rev_id (set_current cr None)).
    now apply in_map.
Qed.

Lemma item_update_current instance vd s a s' :
  CollectionItemSerializer.update instance vd s = (Ok a, s') ->
  exists r,
    current_revisions (item_id instance) (db s') = [r]
    /\ rev_uid r = rd_uid (CollectionItemSerializer.content vd).
Proof.
  intros H. apply atomic_Ok in H.
  now apply (demote_and_build_current instance _ instance s a s').
Qed.

Lemma demote_and_build_consistent {A} item rd (instance : A) s a s' :
  consistent (db s) ->
  demote_and_build item rd instance s = (Ok a, s') ->
  consistent (db s').
Proof.
  intros C H.
  apply demote_and_build_Ok in H
    as (cr & r & Hcr & _ & Hid & Hitem & Hcur & _ & T & I & R).
  unfold consistent. rewrite I, R.
  now apply consistent_supersede.
Qed.

Lemma item_create_consistent vd s instance s' :
  consistent (db s) ->
  CollectionItemSerializer.create vd s = (Ok instance, s') ->
  consistent (db s').
Proof.
  intros C H. apply atomic_Ok in H.
  apply bind_Ok in H as (i & s1 & I & H).
  unfold CollectionItem_insert, write in I. injection I as <- <-.
  apply bind_Ok in H as (r & s2 & P & H). injection H as _ <-.
  apply process_revisions_for_item_tables in P as (-> & _ & _ & I & _ & R).
  unfold consistent. rewrite I, R. cbn [db items revisions set_items].
  now apply consistent_create.
Qed.

Lemma collection_create_consistent vd s instance s' :
  consistent (db s) ->
  CollectionSerializer.create vd s = (Ok instance, s') ->
  consistent (db s').
Proof.
  intros C H. apply atomic_Ok in H.
  apply bind_Ok in H as (c & s1 & I1 & H).
  unfold Collection_insert, write in I1. injection I1 as <- <-.
  apply bind_Ok in H as (i & s2 & I2 & H).
  unfold CollectionItem_insert, write in I2. injection I2 as <- <-.
  apply bind_Ok in H as (r & s3 & P & H).
  apply process_revisions_for_item_tables in P as (-> & _ & _ & I & _ & R).
  apply bind_Ok in H as ([] & s4 & S & H).
  unfold Collection_save, write in S. injection S as <-.
  apply bind_Ok in H as (m & s5 & I3 & H).
  unfold CollectionMember_insert, write in I3. injection I3 as _ <-.
  injection H as _ <-.
  unfold consistent. cbn [db items revisions set_members set_collections].
  rewrite I, R. cbn [db items revisions set_items set_collections].
  now apply consistent_create.
Qed.

Lemma step_consistent s s' : step s s' -> consistent (db s) -> consistent (db s').
Proof.
  intros [vd s0 [a|e] s1 H | inst vd s0 [a|e] s1 H
         | vd s0 [a|e] s1 H | inst vd s0 [a|e] s1 H] C;
    try (apply atomic_Raise in H; now rewrite H).
  - now apply (item_create_consistent vd s0 a).
  - rewrite item_update_body in H. apply atomic_Ok in H.
    now apply (demote_and_build_consistent _ _ _ _ _ _ C H).
  - now apply (collection_create_consistent vd s0 a).
  - rewrite collection_update_body in H. apply atomic_Ok in H.
    apply bind_Ok in H as (mi & s2 & Q & H).
    assert (s2 = s0) as ->.
    { unfold CollectionSerializer.mainItem in Q.
      destruct (col_mainItem inst); [|now injection Q].
      apply bind_Ok in Q as (x & s3 & Q1 & Q2).
      unfold query in Q1. injection Q1 as <- <-.
      destruct (QuerySet.get _); [now injection Q2 | discriminate]. }
    destruct mi as [main_item|]; [|discriminate].
    now apply (demote_and_build_consistent _ _ _ _ _ _ C H).
Qed.

Lemma reachable_consistent s : reachable s -> consistent (db s).
Proof.
  induction 1 as [|s s' _ IH Hstep].
  - repeat split; [constructor | intros r [] | intros i []].
  - now apply (step_consistent s).
Qed.

(** * The claims *)

(** C1. Single-current invariant: in every state that a sequence of
    serializer calls (item or collection [create] and [update], each in
    its transaction, whether it succeeds or raises) leads to from the
    empty database, every item of the table has exactly one revision with
    [current = True]. *)
Theorem single_current_revision (s : state) :
  reachable s ->
  forall i, In i (items (db s)) ->
    List.length (current_revisions (item_id i) (db s)) = 1%nat.
Proof.
  intros R i Hi. destruct (reachable_consistent s R) as (_ & _ & H).
  exact (H i Hi).
Qed.

Lemma scenario_reachable : reachable (snd Scenario.updated).
Proof.
  apply (reachable_step (snd Scenario.created)).
  - apply (reachable_step initial); [constructor|].
    apply (step_item_create
             (Scenario.payload "r1" [("c1"%string, Some Scenario.hello)])
             initial (fst Scenario.created)).
    apply surjective_pairing.
  - apply (step_item_update Scenario.item
             (Scenario.payload "r2" [("c1"%string, None)])
             (snd Scenario.created) (fst Scenario.updated)).
    apply surjective_pairing.
Defined.

Lemma single_current_revision_witness :
  List.length (current_revisions 1 (db (snd Scenario.updated))) = 1%nat.
Proof.
  apply (single_current_revision (snd Scenario.updated) scenario_reachable
           Scenario.item).
  vm_compute. left. reflexivity.
Defined.

(** C3. [update] on an item without a current revision: the lookup
    [filter(current=True).first()] gives [None], the assignment to its
    [current] raises (the [AttributeError] of Python, which the
    specification calls NoCurrentRevisionError), and the state is the one
    before the call. The same holds of the collection's [update] when the
    item is the collection's main item. *)
Theorem update_without_current_revision (item : CollectionItem) (s : state) :
  current_revisions (item_id item) (db s) = [] ->
  (forall vd,
     CollectionItemSerializer.update item vd s = (Raise AttributeError, s))
  /\ (forall instance vd,
        col_mainItem instance = Some (item_id item) ->
        filter (fun x => item_id x =? item_id item) (items (db s)) = [item] ->
        CollectionSerializer.update instance vd s = (Raise AttributeError, s)).
Proof.
  intros H. split.
  - intros vd. unfold CollectionItemSerializer.update, atomic, bind, query.
    rewrite H. cbn. now rewrite state_eta.
  - intros instance vd Hmain Hitem.
    unfold CollectionSerializer.update, atomic, bind,
      CollectionSerializer.mainItem, query.
    rewrite Hmain. unfold bind, query. rewrite Hitem. cbn.
    rewrite H. cbn. now rewrite state_eta.
Qed.

Lemma update_without_current_revision_witness :
  CollectionItemSerializer.update Scenario.item
    (Scenario.payload "r2" [("c1"%string, None)]) Scenario.bare
  = (Raise AttributeError, Scenario.bare)
  /\ CollectionSerializer.update Scenario.collection_row Scenario.bootstrap
       Scenario.bare
     = (Raise AttributeError, Scenario.bare).
Proof.
  destruct (update_without_current_revision Scenario.item Scenario.bare
              eq_refl) as [H1 H2].
  split; [apply H1 | apply H2; reflexivity].
Defined.

(** C4. Atomic collection bootstrap: when [CollectionSerializer.create]
    raises, at whatever step, the database is the one before the call: no
    collection, item, chunk, revision, chunk-reference or member row of the
    call remains. *)
Theorem collection_create_atomic vd s e s' :
  CollectionSerializer.create vd s = (Raise e, s') ->
  collections (db s') = collections (db s)
  /\ items (db s') = items (db s)
  /\ chunks (db s') = chunks (db s)
  /\ revisions (db s') = revisions (db s)
  /\ relations (db s') = relations (db s)
  /\ members (db s') = members (db s).
Proof.
  intros H. apply atomic_Raise in H. rewrite H. repeat split.
Qed.

Lemma collection_create_atomic_witness :
  let after := snd (CollectionSerializer.create Scenario.orphan initial) in
  collections (db after) = [] /\ items (db after) = []
  /\ chunks (db after) = [] /\ revisions (db after) = []
  /\ relations (db after) = [] /\ members (db after) = [].
Proof.
  apply (collection_create_atomic Scenario.orphan initial DoesNotExist).
  reflexivity.
Defined.

(** C5. After a successful [CollectionSerializer.create] the collection
    row names a main item of the table with [uid = None],
    [encryptionKey = None] and the collection's version, and the member
    table has a row for this collection with the payload's owner, access
    level ADMIN and the payload's encryption key. *)
Theorem collection_create_bootstrap vd s instance s' :
  CollectionSerializer.create vd s = (Ok instance, s') ->
  exists main_item member,
    In instance (collections (db s'))
    /\ col_version instance = CollectionSerializer.version vd
    /\ col_mainItem instance = Some (item_id main_item)
    /\ In main_item (items (db s'))
    /\ item_uid main_item = None
    /\ item_encryptionKey main_item = None
    /\ item_version main_item = col_version instance
    /\ item_collection main_item = col_id instance
    /\ In member (members (db s'))
    /\ mem_collection member = col_id instance
    /\ mem_user member = CollectionSerializer.owner vd
    /\ mem_accessLevel member = ADMIN
    /\ mem_encryptionKey member = CollectionSerializer.encryptionKey vd.
Proof.
  intros H. apply atomic_Ok in H.
  apply bind_Ok in H as (c & s1 & I1 & H).
  unfold Collection_insert, write in I1. injection I1 as <- <-.
  apply bind_Ok in H as (i & s2 & I2 & H).
  unfold CollectionItem_insert, write in I2. injection I2 as <- <-.
  apply bind_Ok in H as (r & s3 & P & H).
  apply process_revisions_for_item_tables in P as (-> & _ & C & I & M & _).
  apply bind_Ok in H as ([] & s4 & S & H).
  unfold Collection_save, write in S. injection S as <-.
  apply bind_Ok in H as (m & s5 & I3 & H).
  unfold CollectionMember_insert, write in I3. injection I3 as <- <-.
  injection H as <- <-.
  exists {| item_id := next_id (map item_id (items (db s)));
            item_uid := None; item_encryptionKey := None;
            item_version := CollectionSerializer.version vd;
            item_collection := next_id (map col_id (collections (db s))) |},
         {| mem_id := next_id (map mem_id (members (db s3)));
            mem_collection := next_id (map col_id (collections (db s)));
            mem_user := CollectionSerializer.owner vd;
            mem_accessLevel := ADMIN;
            mem_encryptionKey := CollectionSerializer.encryptionKey vd |}.
  cbn [db collections items members set_members set_collections set_items].
  rewrite I. cbn [db collections items members set_collections set_items].
  split; [apply (In_save_row col_id)|].
  split; [reflexivity|]. split; [reflexivity|].
  split; [apply in_or_app; right; left; reflexivity|].
  split; [reflexivity|]. split; [reflexivity|]. split; [reflexivity|].
  split; [reflexivity|].
  split; [apply in_or_app; right; left; reflexivity|].
  repeat split.
Qed.

Lemma collection_create_bootstrap_witness :
  exists main_item member,
    In Scenario.collection_row
       (collections (db (snd (CollectionSerializer.create Scenario.bootstrap
                                initial))))
    /\ col_version Scenario.collection_row = 1
    /\ col_mainItem Scenario.collection_row = Some (item_id main_item)
    /\ In main_item
         (items (db (snd (CollectionSerializer.create Scenario.bootstrap
                            initial))))
    /\ item_uid main_item = None
    /\ item_encryptionKey main_item = None
    /\ item_version main_item = col_version Scenario.collection_row
    /\ item_collection main_item = col_id Scenario.collection_row
    /\ In member
         (members (db (snd (CollectionSerializer.create Scenario.bootstrap
                              initial))))
    /\ mem_collection member = col_id Scenario.collection_row
    /\ mem_user member = Some 7
    /\ mem_accessLevel member = ADMIN
    /\ mem_encryptionKey member = list_byte_of_string "key".
Proof.
  apply (collection_create_bootstrap Scenario.bootstrap initial
           Scenario.collection_row).
  reflexivity.
Defined.

Lemma resolve_chunks_app (item : CollectionItem) (l1 l2 : list chunk_tuple) :
  forall s,
    resolve_chunks item (l1 ++ l2) s =
      match resolve_chunks item l1 s with
      | (Ok objs1, s1) =>
          match resolve_chunks item l2 s1 with
          | (Ok objs2, s2) => (Ok (objs1 ++ objs2), s2)
          | (Raise e, s2) => (Raise e, s2)
          end
      | (Raise e, s1) => (Raise e, s1)
      end.
Proof.
  induction l1 as [|c l1 IH]; intros s.
  - cbn [app resolve_chunks]. unfold ret.
    now destruct (resolve_chunks item l2 s) as [[?|?] ?].
  - cbn [app resolve_chunks]. unfold bind at 1 3.
    destruct (resolve_chunk item c s) as [[o|e] s0]; [|reflexivity].
    unfold bind, ret. rewrite IH.
    destruct (resolve_chunks item l1 s0) as [[objs1|e] s1]; [|reflexivity].
    now destruct (resolve_chunks item l2 s1) as [[?|?] ?].
Qed.

Lemma resolve_chunk_duplicate (item : CollectionItem) uid content s c0 :
  In c0 (chunks (db s)) -> chunk_uid c0 = uid ->
  exists s', resolve_chunk item (uid, Some content) s = (Raise IntegrityError, s').
Proof.
  intros Hin Huid. rewrite resolve_chunk_new.
  match goal with |- context [chunk_uid_taken ?c ?l] =>
    assert (T : chunk_uid_taken c l = true) end.
  { apply existsb_exists. exists c0. split; [exact Hin|].
    cbn [chunk_id chunk_uid]. rewrite Huid, String.eqb_refl, andb_true_r.
    apply negb_true_iff, Z.eqb_neq. intros E.
    apply (next_id_fresh (map chunk_id (chunks (db s)))).
    rewrite <- E. now apply in_map. }
  rewrite T. eauto.
Qed.

(** C6. A chunk tuple with content whose uid names a chunk of the table:
    [process_revisions_for_item] raises; the exception is the
    [IntegrityError] of the uniqueness constraint on chunk uids (the
    DuplicateChunkError of the specification) whenever the tuples before
    it were resolved; the chunk row is still there and the bytes stored
    for it are the same. *)
Theorem duplicate_chunk_rejected item rd s pre uid content post c0 :
  chunks_relation rd = pre ++ (uid, Some content) :: post ->
  In c0 (chunks (db s)) -> chunk_uid c0 = uid ->
  exists e s',
    process_revisions_for_item item rd s = (Raise e, s')
    /\ (forall objs s1,
          resolve_chunks item pre s = (Ok objs, s1) -> e = IntegrityError)
    /\ In c0 (chunks (db s'))
    /\ forall b, chunk_bytes s c0 = Some b -> chunk_bytes s' c0 = Some b.
Proof.
  intros Hrd Hin Huid.
  assert (H : exists e s',
             resolve_chunks item (chunks_relation rd) s = (Raise e, s')
             /\ forall objs s1,
                  resolve_chunks item pre s = (Ok objs, s1) ->
                  e = IntegrityError).
  { rewrite Hrd, resolve_chunks_app.
    destruct (resolve_chunks item pre s) as [[objs1|e] s1] eqn:E1.
    - apply resolve_chunks_spec in E1 as [G1 _].
      destruct (resolve_chunk_duplicate item uid content s1 c0
                  (chunks_grow_In _ _ _ G1 Hin) Huid) as [s2 E2].
      cbn [resolve_chunks]. unfold bind at 1. rewrite E2.
      exists IntegrityError, s2. split; [reflexivity | trivial].
    - exists e, s1. split; [reflexivity | discriminate]. }
  destruct H as (e & s' & E & He).
  exists e, s'. unfold process_revisions_for_item, bind. rewrite E.
  apply resolve_chunks_spec in E as [G _].
  split; [reflexivity|]. split; [exact He|].
  split; [now apply (chunks_grow_In s) | intros b; now apply chunks_grow_bytes].
Qed.

Lemma duplicate_chunk_rejected_witness :
  exists e s',
    process_revisions_for_item Scenario.item
      (CollectionItemSerializer.content
         (Scenario.payload "r2" [("c1"%string, Some [x00])]))
      (snd Scenario.created) = (Raise e, s')
    /\ (forall objs s1,
          resolve_chunks Scenario.item [] (snd Scenario.created)
          = (Ok objs, s1) -> e = IntegrityError)
    /\ In {| chunk_id := 1; chunk_uid := "c1"; chunk_item := 1;
             chunk_chunkFile := 1 |} (chunks (db s'))
    /\ forall b,
         chunk_bytes (snd Scenario.created)
           {| chunk_id := 1; chunk_uid := "c1"; chunk_item := 1;
              chunk_chunkFile := 1 |} = Some b ->
         chunk_bytes s'
           {| chunk_id := 1; chunk_uid := "c1"; chunk_item := 1;
              chunk_chunkFile := 1 |} = Some b.
Proof.
  apply (duplicate_chunk_rejected Scenario.item _ (snd Scenario.created)
           [] "c1"%string [x00] []).
  - reflexivity.
  - vm_compute. left. reflexivity.
  - reflexivity.
Defined.

(** C7. The join rows of a new revision: [process_revisions_for_item]
    appends to the relation table one row per tuple of the chunk list, in
    the order of the list: the rows link the new revision to chunks of the
    table whose uids are the uids of the tuples, in that order, and their
    primary keys increase and lie above the keys of the older rows, so the
    order by primary key is the order of the list. *)
Theorem revision_chunk_order item rd s r s' :
  process_revisions_for_item item rd s = (Ok r, s') ->
  exists objs rels,
    relations (db s') = relations (db s) ++ rels
    /\ map (fun x => (rel_revision x, rel_chunk x)) rels
       = map (fun c => (rev_id r, chunk_id c)) objs
    /\ map chunk_uid objs = map fst (chunks_relation rd)
    /\ Forall (fun c => In c (chunks (db s'))) objs
    /\ StronglySorted Z.lt (map rel_id rels)
    /\ Forall (fun x => forall y, In y (relations (db s)) -> rel_id y < rel_id x)
         rels.
Proof.
  intros H.
  apply process_revisions_for_item_Ok in H
    as (objs & s1 & rels & E1 & -> & _ & -> & L1 & L2 & L3).
  apply resolve_chunks_spec in E1 as [_ E1].
  destruct (E1 objs eq_refl) as [Hu Hin].
  exists objs, rels. cbn [db relations chunks set_relations set_revisions].
  repeat split; assumption.
Qed.

Lemma revision_chunk_order_witness :
  exists objs rels,
    relations (db (snd Scenario.rebuilt))
    = relations (db Scenario.demoted) ++ rels
    /\ map (fun x => (rel_revision x, rel_chunk x)) rels
       = map (fun c => (2, chunk_id c)) objs
    /\ map chunk_uid objs = ["c2"%string; "c1"%string; "c3"%string; "c1"%string]
    /\ Forall (fun c => In c (chunks (db (snd Scenario.rebuilt)))) objs
    /\ StronglySorted Z.lt (map rel_id rels)
    /\ Forall (fun x =>
                 forall y, In y (relations (db Scenario.demoted)) ->
                           rel_id y < rel_id x) rels.
Proof.
  refine (revision_chunk_order Scenario.item
            {| rd_uid := "r2"; rd_meta := list_byte_of_string "abc";
               rd_deleted := false;
               chunks_relation := Scenario.mixed_chunks |}
            Scenario.demoted
            {| rev_id := 2; rev_uid := "r2"; rev_item := 1;
               rev_meta := list_byte_of_string "abc";
               rev_current := Some true; rev_deleted := false |}
            (snd Scenario.rebuilt) _).
  vm_compute. reflexivity.
Defined.

(** The mixed chunk list, evaluated: [update] passes through
    [Scenario.demoted] and ends in the state of [Scenario.rebuilt]. *)
Example mixed_chunks_update :
  CollectionItemSerializer.update Scenario.item
    (Scenario.payload "r2" Scenario.mixed_chunks) (snd Scenario.created)
  = (Ok Scenario.item, snd Scenario.rebuilt).
Proof. vm_compute. reflexivity. Qed.

(** Its chunk rows: the chunk of [created], then the two uploads in the
    order of the list. *)
Example mixed_chunks_rows :
  map (fun c => (chunk_id c, chunk_uid c))
      (chunks (db (snd Scenario.rebuilt)))
  = [(1, "c1"%string); (2, "c2"%string); (3, "c3"%string)].
Proof. reflexivity. Qed.

(** Its join rows, as (id, revision, chunk): after the row of [created],
    four rows of revision 2 to the chunks 2, 1, 3, 1, the order of the
    list, uploads and references interleaved. *)
Example mixed_chunks_join_rows :
  map (fun x => (rel_id x, rel_revision x, rel_chunk x))
      (relations (db (snd Scenario.rebuilt)))
  = [(1, 1, 1); (2, 2, 2); (3, 2, 1); (4, 2, 3); (5, 2, 1)].
Proof. reflexivity. Qed.

(** C8. Round trip of the codec: for every byte string [b], [b64encode]
    returns a text, [b64decode] of this text returns [b], and the text
    has no [=] in it. *)
Theorem b64_roundtrip (b : bytes) :
  exists t : string,
    b64encode b = Ok t /\ b64decode t = Ok b
    /\ ~ In "="%char (list_ascii_of_string t).
Proof.
  destruct (CodecFacts.b64encode_b64decode b) as (text & Htext & He & Hd).
  exists (string_of_list_byte text).
  split; [exact He|]. split; [exact Hd|].
  now apply CodecFacts.no_pad_in_text.
Qed.

(** The two-element shape [[uid, text]] of a chunk is decoded to the uid
    and the bytes the text encodes. *)
Lemma chunks_field_inline (uid : string) (content : bytes) :
  exists text,
    b64encode content = Ok text
    /\ ChunksField.to_internal_value [uid; text] = Ok (uid, Some content).
Proof.
  destruct (CodecFacts.b64encode_b64decode content) as (bs & _ & He & Hd).
  set (text := string_of_list_byte bs) in *.
  exists text. split; [exact He|].
  unfold ChunksField.to_internal_value. cbn [nth_error]. now rewrite Hd.
Qed.

(** A tuple without content is resolved by [process_revisions_for_item]
    to the chunk of that uid. *)
Lemma resolve_chunk_reference item uid s c :
  filter (fun x => String.eqb (chunk_uid x) uid) (chunks (db s)) = [c] ->
  resolve_chunk item (uid, None) s = (Ok c, s).
Proof.
  intros H. unfold resolve_chunk, bind, query. cbn [fst snd].
  now rewrite H.
Qed.

(** C9. The reference-only shape [[uid]] of a chunk in a payload:
    [ChunksField.to_internal_value] reads [data[1]] whatever the length of
    [data], so on a list of fewer than two elements it raises
    [IndexError]: such an element is not accepted. *)
Theorem chunks_field_reference_only (data : list string) :
  (List.length data < 2)%nat ->
  ChunksField.to_internal_value data = Raise IndexError.
Proof.
  intros H. destruct data as [|uid [|text rest]].
  - reflexivity.
  - reflexivity.
  - cbn [List.length] in H. lia.
Qed.

Lemma chunks_field_reference_only_witness :
  ChunksField.to_internal_value ["c1"%string] = Raise IndexError.
Proof.
  apply (chunks_field_reference_only ["c1"%string]). cbn. lia.
Defined.

Lemma in_collection_items obj d d' :
  items d' = items d ->
  CollectionSerializer.in_collection obj d'
  = CollectionSerializer.in_collection obj d.
Proof. intros H. unfold CollectionSerializer.in_collection. now rewrite H. Qed.

(** C10. [get_ctag]: [None] when no revision belongs to an item of the
    collection; otherwise the uid of the revision of the collection with
    the greatest primary key, which is the one created last: right after
    [process_revisions_for_item] has created a revision on an item of the
    collection, [get_ctag] is the uid of that revision. *)
Theorem get_ctag_latest_revision (obj : Collection) (s : state) :
  (filter (CollectionSerializer.in_collection obj (db s)) (revisions (db s))
   = [] <-> CollectionSerializer.get_ctag obj (db s) = None)
  /\ (forall r,
        In r (revisions (db s)) ->
        CollectionSerializer.in_collection obj (db s) r = true ->
        exists latest,
          In latest (revisions (db s))
          /\ CollectionSerializer.in_collection obj (db s) latest = true
          /\ (forall x,
                In x (revisions (db s)) ->
                CollectionSerializer.in_collection obj (db s) x = true ->
                rev_id x <= rev_id latest)
          /\ CollectionSerializer.get_ctag obj (db s) = Some (rev_uid latest))
  /\ (forall item rd r s',
        In item (items (db s)) -> item_collection item = col_id obj ->
        process_revisions_for_item item rd s = (Ok r, s') ->
        CollectionSerializer.get_ctag obj (db s') = Some (rev_uid r)).
Proof.
  unfold CollectionSerializer.get_ctag. repeat split.
  - now intros ->.
  - destruct (QuerySet.last _ _) eqn:E; [discriminate|].
    intros _. now apply (last_None rev_id).
  - intros r Hr Hc.
    destruct (QuerySet.last rev_id _) as [latest|] eqn:E.
    + apply last_greatest in E as [Hin Hmax].
      apply filter_In in Hin as [H1 H2].
      exists latest. repeat split; try assumption.
      intros x Hx Hxc. apply Hmax. apply filter_In. now split.
    + apply last_None in E.
      assert (H : In r (filter (CollectionSerializer.in_collection obj (db s))
                          (revisions (db s)))) by (apply filter_In; now split).
      rewrite E in H. destruct H.
  - intros item rd r s' Hitem Hcol H.
    apply process_revisions_for_item_tables in H as (Hr & _ & _ & I & _ & R).
    rewrite R, (in_collection_items obj (db s) (db s') I), filter_app.
    cbn [filter].
    assert (Hc : CollectionSerializer.in_collection obj (db s) r = true).
    { apply existsb_exists. exists item. split; [exact Hitem|].
      rewrite Hr. cbn [new_revision rev_item].
      now rewrite Z.eqb_refl, Hcol, Z.eqb_refl. }
    rewrite Hc, (last_app rev_id); [reflexivity|].
    intros x Hx. apply filter_In in Hx as [Hx _].
    rewrite Hr. cbn [new_revision rev_id]. apply next_id_above.
    now apply in_map.
Qed.

Example get_ctag_scenario :
  CollectionSerializer.get_ctag Scenario.collection_row
    (db (snd Scenario.updated)) = Some "r2"%string
  /\ CollectionSerializer.get_ctag Scenario.collection_row (db initial) = None.
Proof. split; reflexivity. Qed.

(** * Further properties *)

(** ** The codec *)

Module CodecMore.
Import Base64 Base64Facts CodecFacts.
Local Open Scope nat_scope.

Lemma b2a_urlsafe (n : N) :
  (n < 64)%N -> is_urlsafe (urlsafe_encode_translation (b2a n)) = true.
Proof.
  intros Hn.
  apply (all_below_spec 64 alphabet_urlsafe); [vm_compute; reflexivity | exact Hn].
Qed.

Lemma is_urlsafe_not_pad (text : bytes) :
  forallb is_urlsafe text = true -> Forall (fun c => c <> BASE64_PAD) text.
Proof.
  intros H. apply Forall_forall. intros c Hc ->.
  rewrite forallb_forall in H. specialize (H _ Hc). discriminate.
Qed.

(** The encoding without its padding: URL-safe characters, four for
    every three bytes and two or three for a last group of one or two. *)
Lemma urlsafe_b64encode_text (data : bytes) :
  exists (text : bytes) (pad : nat),
    urlsafe_b64encode data = text ++ repeat BASE64_PAD pad
    /\ forallb is_urlsafe text = true
    /\ List.length text = (4 * List.length data + 2) / 3.
Proof.
  unfold urlsafe_b64encode.
  induction data as [| a | a b | a b c rest IH] using bytes_ind3.
  - exists [], 0. repeat split.
  - pose proof (to_N_lt a).
    eexists [_; _], 2. cbn [b2a_base64 map app repeat].
    split; [reflexivity|]. split; [|reflexivity].
    cbn [forallb]. rewrite !b2a_urlsafe; [reflexivity | |];
      [now apply sextet2_lt | now apply sextet1_lt].
  - pose proof (to_N_lt a). pose proof (to_N_lt b).
    eexists [_; _; _], 1. cbn [b2a_base64 map app repeat].
    split; [reflexivity|]. split; [|reflexivity].
    cbn [forallb]. rewrite !b2a_urlsafe; [reflexivity | | |];
      [now apply sextet3_lt | now apply sextet2_lt | now apply sextet1_lt].
  - pose proof (to_N_lt a). pose proof (to_N_lt b). pose proof (to_N_lt c).
    destruct IH as (text & pad & E & Htext & Hlen).
    eexists (_ :: _ :: _ :: _ :: text), pad.
    cbn [b2a_base64 map app]. rewrite E.
    split; [reflexivity|]. split.
    + cbn [forallb]. rewrite Htext, !b2a_urlsafe; [reflexivity | | | |];
        [now apply sextet4_lt | now apply sextet3_lt | now apply sextet2_lt
        | now apply sextet1_lt].
    + cbn [List.length]. rewrite Hlen.
      replace (4 * S (S (S (List.length rest))) + 2)
        with (4 * List.length rest + 2 + 4 * 3) by lia.
      rewrite Nat.div_add by lia. lia.
Qed.

Lemma b64encode_text (value : bytes) :
  exists text : bytes,
    b64encode value = Ok (string_of_list_byte text)
    /\ forallb is_urlsafe text = true
    /\ List.length text = (4 * List.length value + 2) / 3.
Proof.
  destruct (urlsafe_b64encode_text value) as (text & pad & E & Htext & Hlen).
  exists text. split; [|now split].
  unfold b64encode, decode_ascii.
  rewrite urlsafe_b64encode_ascii, E. f_equal.
  apply strip_text_pads. now apply is_urlsafe_not_pad.
Qed.

Lemma urlsafe_b64encode_length4 (data : bytes) :
  List.length (urlsafe_b64encode data) mod 4 = 0.
Proof.
  destruct (urlsafe_b64encode_shape data) as (text & pad & E & _ & _ & H).
  now rewrite E, length_app, repeat_length.
Qed.

Lemma append_empty (s : string) : (s ++ "")%string = s.
Proof. induction s as [|c s IH]; [reflexivity|]. cbn. now rewrite IH. Qed.

End CodecMore.

(** X1. [b64encode] returns a text of [ceil(4 n / 3)] characters for [n]
    bytes. *)
Theorem b64encode_length (value : bytes) :
  exists text : string,
    b64encode value = Ok text
    /\ String.length text = ((4 * List.length value + 2) / 3)%nat.
Proof.
  destruct (CodecMore.b64encode_text value) as (text & E & _ & Hlen).
  exists (string_of_list_byte text). split; [exact E|].
  now rewrite CodecFacts.string_of_list_byte_length.
Qed.

(** X2. The text of [b64encode] is made of letters, digits, [-] and [_]
    only: neither [+] nor [/] of the standard alphabet nor [=]. *)
Theorem b64encode_urlsafe_text (value : bytes) :
  exists text : string,
    b64encode value = Ok text
    /\ forallb is_urlsafe (list_byte_of_string text) = true.
Proof.
  destruct (CodecMore.b64encode_text value) as (text & E & Htext & _).
  exists (string_of_list_byte text). split; [exact E|].
  now rewrite list_byte_of_string_of_list_byte.
Qed.

(** X3. [b64encode] is injective: byte strings with the same text are
    equal. *)
Theorem b64encode_injective (a b : bytes) :
  b64encode a = b64encode b -> a = b.
Proof.
  intros H.
  destruct (CodecFacts.b64encode_b64decode a) as (ta & _ & Ea & Da).
  destruct (CodecFacts.b64encode_b64decode b) as (tb & _ & Eb & Db).
  rewrite Ea, Eb in H. injection H as H. rewrite H in Da.
  rewrite Da in Db. now injection Db.
Qed.

Lemma b64encode_injective_witness :
  list_byte_of_string "hello" = Scenario.hello.
Proof.
  apply (b64encode_injective (list_byte_of_string "hello") Scenario.hello).
  reflexivity.
Defined.

(** X4. [b64decode] takes the padded encoding too: the text of
    [base64.urlsafe_b64encode], with its [=], decodes to the bytes and no
    padding is added to it. *)
Theorem b64decode_padded (value : bytes) :
  exists text : string,
    Base64.decode_ascii (Base64.urlsafe_b64encode value) = Ok text
    /\ (String.length text mod 4 = 0)%nat
    /\ b64decode text = Ok value.
Proof.
  exists (string_of_list_byte (Base64.urlsafe_b64encode value)).
  pose proof (CodecMore.urlsafe_b64encode_length4 value) as L.
  unfold Base64.decode_ascii. rewrite CodecFacts.urlsafe_b64encode_ascii.
  split; [reflexivity|].
  rewrite CodecFacts.string_of_list_byte_length. split; [exact L|].
  unfold b64decode. rewrite CodecFacts.string_of_list_byte_length, L.
  change ((4 - 0) mod 4)%nat with 0%nat. cbn [str_repeat].
  rewrite CodecMore.append_empty.
  unfold Base64.urlsafe_b64decode, Base64.bytes_from_decode_types.
  rewrite list_byte_of_string_of_list_byte,
    CodecFacts.urlsafe_b64encode_ascii, CodecFacts.urlsafe_translations.
  unfold Base64.a2b_base64. now rewrite Base64Facts.a2b_b2a.
Qed.

Module DecoderMore.
Import Base64 Base64Facts CodecFacts.

Lemma list_byte_of_string_app (s1 s2 : string) :
  list_byte_of_string (s1 ++ s2)
  = list_byte_of_string s1 ++ list_byte_of_string s2.
Proof.
  induction s1 as [|c s1 IH]; [reflexivity|].
  cbn [String.append].
  change (list_byte_of_string (String c (s1 ++ s2)))
    with (byte_of_ascii c :: list_byte_of_string (s1 ++ s2)).
  now rewrite IH.
Qed.

Lemma list_byte_of_pads (n : nat) :
  list_byte_of_string (str_repeat "=" n) = repeat BASE64_PAD n.
Proof.
  rewrite <- string_of_pads. apply list_byte_of_string_of_list_byte.
Qed.

(** A character the table knows is neither skipped nor the pad. *)
Lemma table_char (c : byte) (v : N) :
  table_a2b_base64 c = Some v ->
  skipped c = false /\ Byte.eqb c BASE64_PAD = false.
Proof. destruct c; (discriminate || (intros _; split; reflexivity)). Qed.

Lemma urlsafe_char (c : byte) :
  is_urlsafe c = true ->
  is_ascii c = true
  /\ exists v, table_a2b_base64 (urlsafe_decode_translation c) = Some v.
Proof.
  destruct c; (discriminate || (intros _; split; [reflexivity | eexists; reflexivity])).
Qed.

(** One character of the alphabet moves the decoder to the next phase of
    the group of four, whatever the bits it holds. *)
Lemma a2b_loop_phase (c : byte) (v : N) (k : nat) (leftchar : N) rest :
  table_a2b_base64 c = Some v -> (k < 4)%nat ->
  exists leftchar',
    snd (a2b_loop (fst (quad_phase k)) leftchar (snd (quad_phase k))
           (c :: rest))
    = snd (a2b_loop (fst (quad_phase (S k mod 4))) leftchar'
             (snd (quad_phase (S k mod 4))) rest).
Proof.
  intros Hc Hk. destruct (table_char c v Hc) as [Hs Hp].
  cbn [a2b_loop]. rewrite Hs, Hp, Hc.
  destruct k as [|[|[|[|k]]]]; [| | | | lia]; cbn [quad_phase fst snd].
  - change (8 <=? 0 + 6)%N with false. cbv iota. eexists. reflexivity.
  - change (8 <=? 6 + 6)%N with true. cbv iota.
    change (6 + 6 - 8)%N with 4%N.
    destruct (a2b_loop _ _ 4 rest) eqn:E. eexists. cbn [snd].
    change (N.land (1 + 1) 3) with 2%N in E. cbn. rewrite E. reflexivity.
  - change (8 <=? 4 + 6)%N with true. cbv iota.
    change (4 + 6 - 8)%N with 2%N.
    destruct (a2b_loop _ _ 2 rest) eqn:E. eexists. cbn [snd].
    change (N.land (2 + 1) 3) with 3%N in E. cbn. rewrite E. reflexivity.
  - change (8 <=? 2 + 6)%N with true. cbv iota.
    change (2 + 6 - 8)%N with 0%N.
    destruct (a2b_loop _ _ 0 rest) eqn:E. eexists. cbn [snd].
    change (N.land (3 + 1) 3) with 0%N in E. cbn. rewrite E. reflexivity.
Qed.

Lemma a2b_loop_phases (text : bytes) rest :
  Forall (fun c => exists v, table_a2b_base64 c = Some v) text ->
  forall (k : nat) (leftchar : N),
    (k < 4)%nat ->
    exists leftchar',
      snd (a2b_loop (fst (quad_phase k)) leftchar (snd (quad_phase k))
             (text ++ rest))
      = snd (a2b_loop (fst (quad_phase ((k + List.length text) mod 4)))
               leftchar'
               (snd (quad_phase ((k + List.length text) mod 4))) rest).
Proof.
  induction 1 as [|c text [v Hc] _ IH]; intros k leftchar Hk.
  - exists leftchar. cbn [app List.length].
    now rewrite Nat.add_0_r, Nat.mod_small.
  - destruct (a2b_loop_phase c v k leftchar (text ++ rest) Hc Hk)
      as [lc1 E1].
    destruct (IH (S k mod 4)%nat lc1) as [lc2 E2];
      [apply Nat.mod_upper_bound; lia|].
    exists lc2. cbn [app List.length]. rewrite E1, E2.
    replace ((S k mod 4 + List.length text) mod 4)%nat
      with ((k + S (List.length text)) mod 4)%nat; [reflexivity|].
    rewrite Nat.Div0.add_mod_idemp_l. f_equal. lia.
Qed.

End DecoderMore.

(** X5. [b64decode] of a text with a character above 0x7f raises
    [ValueError], whatever the rest of the text. *)
Theorem b64decode_non_ascii (data : string) (c : byte) :
  In c (list_byte_of_string data) -> Base64.is_ascii c = false ->
  b64decode data = Raise ValueError.
Proof.
  intros Hin Hc.
  unfold b64decode, Base64.urlsafe_b64decode, Base64.bytes_from_decode_types.
  rewrite DecoderMore.list_byte_of_string_app, forallb_app.
  destruct (forallb Base64.is_ascii (list_byte_of_string data)) eqn:E;
    [|reflexivity].
  rewrite forallb_forall in E. rewrite (E c Hin) in Hc. discriminate.
Qed.

Lemma b64decode_non_ascii_witness :
  b64decode (String (ascii_of_nat 233) "YQ") = Raise ValueError.
Proof.
  apply (b64decode_non_ascii (String (ascii_of_nat 233) "YQ") xe9).
  - left. reflexivity.
  - reflexivity.
Defined.

(** X6. [b64decode] of a text of URL-safe characters whose length is one
    more than a multiple of four raises [binascii.Error]: six bits are
    left over and the padding that was added cannot complete them. *)
Theorem b64decode_one_left_over (data : string) :
  forallb is_urlsafe (list_byte_of_string data) = true ->
  (String.length data mod 4 = 1)%nat ->
  b64decode data = Raise BinasciiError.
Proof.
  intros Hsafe Hlen.
  assert (Hl : String.length data = List.length (list_byte_of_string data)).
  { rewrite <- (string_of_list_byte_of_string data) at 1.
    apply CodecFacts.string_of_list_byte_length. }
  unfold b64decode. rewrite Hlen. change ((4 - 1) mod 4)%nat with 3%nat.
  unfold Base64.urlsafe_b64decode, Base64.bytes_from_decode_types.
  rewrite DecoderMore.list_byte_of_string_app, DecoderMore.list_byte_of_pads.
  rewrite Hl in Hlen. revert Hsafe Hlen.
  generalize (list_byte_of_string data) as text. intros text Hsafe Hlen.
  assert (Hascii : forallb Base64.is_ascii (text ++ repeat Base64.BASE64_PAD 3)
                   = true).
  { rewrite forallb_app. apply andb_true_iff. split; [|reflexivity].
    apply forallb_forall. intros c Hc. rewrite forallb_forall in Hsafe.
    now apply DecoderMore.urlsafe_char, Hsafe. }
  rewrite Hascii, map_app.
  assert (Hvalid : Forall (fun c => exists v,
                             Base64.table_a2b_base64 c = Some v)
                     (map Base64.urlsafe_decode_translation text)).
  { apply Forall_map, Forall_forall. intros c Hc.
    rewrite forallb_forall in Hsafe.
    now apply DecoderMore.urlsafe_char, Hsafe. }
  destruct (DecoderMore.a2b_loop_phases _
              (map Base64.urlsafe_decode_translation
                 (repeat Base64.BASE64_PAD 3)) Hvalid 0%nat 0%N)
    as [lc E]; [lia|].
  rewrite length_map in E. cbn [Nat.add] in E. rewrite Hlen in E.
  cbn [quad_phase fst snd] in E.
  unfold Base64.a2b_base64.
  destruct (Base64.a2b_loop 0 0 0 _) as [out bits]. cbn [snd] in E.
  rewrite E. reflexivity.
Qed.

Lemma b64decode_one_left_over_witness : b64decode "aGVsb" = Raise BinasciiError.
Proof. apply (b64decode_one_left_over "aGVsb"); reflexivity. Defined.

(** ** The revision builder *)

Lemma resolve_chunks_references (item : CollectionItem) (l : list chunk_tuple) :
  Forall (fun t => snd t = None) l ->
  forall s res s', resolve_chunks item l s = (res, s') -> s' = s.
Proof.
  induction 1 as [|[uid content] l Hc _ IH]; intros s res s' H.
  - now injection H.
  - cbn [snd] in Hc. subst content.
    cbn [resolve_chunks] in H. unfold bind at 1 in H.
    unfold resolve_chunk, bind, query in H. cbn [fst snd] in H.
    destruct (QuerySet.get _) as [c|e]; unfold ret, raise in H.
    + unfold bind in H.
      destruct (resolve_chunks item l s) as [[objs|e] s1] eqn:E;
        apply IH in E; now injection H as _ <-.
    + now injection H.
Qed.

(** X7. A revision whose chunk tuples are all references writes no file
    and no chunk row, whether [process_revisions_for_item] returns or
    raises. *)
Theorem references_write_nothing item rd s res s' :
  Forall (fun t => snd t = None) (chunks_relation rd) ->
  process_revisions_for_item item rd s = (res, s') ->
  chunks (db s') = chunks (db s) /\ storage s' = storage s.
Proof.
  intros Hrefs H. unfold process_revisions_for_item in H.
  unfold bind at 1 in H.
  destruct (resolve_chunks item (chunks_relation rd) s) as [[objs|e] s1] eqn:E;
    apply (resolve_chunks_references item _ Hrefs) in E; subst s1;
    [|now injection H as _ <-].
  unfold bind at 1 in H. unfold CollectionItemRevision_insert, write in H.
  destruct (current_taken _ _); [now injection H as _ <-|].
  unfold bind in H.
  match type of H with context [create_relations ?r ?o ?st] =>
    destruct (create_relations_spec r o st) as (rels & C & _) end.
  rewrite C in H. injection H as _ <-. now split.
Qed.

Lemma references_write_nothing_witness :
  chunks (db (snd Scenario.updated)) = chunks (db (snd Scenario.created))
  /\ storage (snd Scenario.updated) = storage (snd Scenario.created).
Proof.
  refine (references_write_nothing Scenario.item
            {| rd_uid := "r2"; rd_meta := list_byte_of_string "abc";
               rd_deleted := false;
               chunks_relation := [("c1"%string, None)] |}
            {| db := set_revisions (db (snd Scenario.created))
                       [{| rev_id := 1; rev_uid := "r1"; rev_item := 1;
                           rev_meta := list_byte_of_string "abc";
                           rev_current := None; rev_deleted := false |}];
               storage := storage (snd Scenario.created) |}
            (Ok {| rev_id := 2; rev_uid := "r2"; rev_item := 1;
                   rev_meta := list_byte_of_string "abc";
                   rev_current := Some true; rev_deleted := false |})
            (snd Scenario.updated) _ _).
  - repeat constructor.
  - reflexivity.
Defined.

Lemma get_by_unique_uid (uid : string) (l : list CollectionItemChunk) :
  NoDup (map chunk_uid l) ->
  (filter (fun x => String.eqb (chunk_uid x) uid) l = []
   /\ forall c, In c l -> chunk_uid c <> uid)
  \/ exists c, filter (fun x => String.eqb (chunk_uid x) uid) l = [c].
Proof.
  induction l as [|x l IH]; intros Hnd.
  - left. split; [reflexivity | intros c []].
  - cbn [map] in Hnd. inversion Hnd as [|? ? Hx Hnd']; subst.
    cbn [filter]. destruct (String.eqb_spec (chunk_uid x) uid) as [E|NE].
    + right. exists x. f_equal.
      destruct (IH Hnd') as [[F _]|[c F]]; [exact F|].
      exfalso. apply Hx.
      assert (Hc : In c (filter (fun y => String.eqb (chunk_uid y) uid) l))
        by (rewrite F; now left).
      apply filter_In in Hc as [Hc Hu]. apply String.eqb_eq in Hu.
      rewrite E, <- Hu. now apply in_map.
    + destruct (IH Hnd') as [[F Hno]|[c F]]; [left | right; now exists c].
      split; [exact F|]. intros c [<-|Hc]; [exact NE | now apply Hno].
Qed.

Lemma resolve_references_missing (item : CollectionItem)
  (l : list chunk_tuple) (s : state) :
  Forall (fun t => snd t = None) l ->
  NoDup (map chunk_uid (chunks (db s))) ->
  (exists t, In t l /\ forall c, In c (chunks (db s)) -> chunk_uid c <> fst t) ->
  resolve_chunks item l s = (Raise DoesNotExist, s).
Proof.
  intros Hrefs Hnd. induction Hrefs as [|[uid content] l Hc _ IH];
    intros (t & Ht & Hmiss); [destruct Ht|].
  cbn [snd] in Hc. subst content.
  cbn [resolve_chunks]. unfold bind at 1.
  unfold resolve_chunk, bind, query. cbn [fst snd].
  destruct (get_by_unique_uid uid _ Hnd) as [[F Hno]|[c F]]; rewrite F.
  - reflexivity.
  - cbn [QuerySet.get]. unfold ret. unfold bind.
    rewrite IH; [reflexivity|].
    destruct Ht as [<-|Ht]; [|now exists t].
    exfalso. cbn [fst] in Hmiss.
    assert (Hc : In c (filter (fun x => String.eqb (chunk_uid x) uid)
                         (chunks (db s)))) by (rewrite F; now left).
    apply filter_In in Hc as [Hc Hu]. apply String.eqb_eq in Hu.
    now apply (Hmiss c).
Qed.

(** X8. A reference to a uid no chunk has: when all tuples are references
    and chunk uids are distinct, [process_revisions_for_item] raises
    [DoesNotExist] and the state is untouched. *)
Theorem missing_reference_raises item rd s :
  Forall (fun t => snd t = None) (chunks_relation rd) ->
  NoDup (map chunk_uid (chunks (db s))) ->
  (exists t, In t (chunks_relation rd)
             /\ forall c, In c (chunks (db s)) -> chunk_uid c <> fst t) ->
  process_revisions_for_item item rd s = (Raise DoesNotExist, s).
Proof.
  intros Hrefs Hnd Hmiss. unfold process_revisions_for_item, bind.
  now rewrite (resolve_references_missing item _ s Hrefs Hnd Hmiss).
Qed.

Lemma missing_reference_raises_witness :
  process_revisions_for_item Scenario.item
    {| rd_uid := "r3"; rd_meta := []; rd_deleted := false;
       chunks_relation := [("c1"%string, None); ("c2"%string, None)] |}
    (snd Scenario.created)
  = (Raise DoesNotExist, snd Scenario.created).
Proof.
  apply missing_reference_raises.
  - repeat constructor.
  - vm_compute. repeat constructor. intros [].
  - exists ("c2"%string, None). split; [right; left; reflexivity|].
    vm_compute. intros c [<-|[]]. discriminate.
Defined.

Lemma storage_open_saved (st : file_storage) (content : bytes) :
  storage_open (next_id (map fst st)) (st ++ [(next_id (map fst st), content)])
  = Some content.
Proof.
  unfold storage_open.
  assert (H : forall x, In x st -> fst x <> next_id (map fst st)).
  { intros x Hx E. apply (next_id_fresh (map fst st)). rewrite <- E.
    now apply in_map. }
  revert H. generalize (next_id (map fst st)) as name. intros name H.
  induction st as [|x st IH].
  - cbn. now rewrite Z.eqb_refl.
  - cbn [app find].
    rewrite (proj2 (Z.eqb_neq _ _) (H x (or_introl eq_refl))).
    apply IH. intros y Hy. apply H. now right.
Qed.

Lemma resolved_grow s s' c t :
  chunks_grow s s' -> resolved s c t -> resolved s' c t.
Proof.
  intros G (H1 & H2 & H3). repeat split; [now apply (chunks_grow_In s) | exact H2|].
  intros content Hc. apply (chunks_grow_bytes s); [exact G | now apply H3].
Qed.

Lemma resolve_chunk_resolved item t s c s' :
  resolve_chunk item t s = (Ok c, s') -> resolved s' c t.
Proof.
  intros H. pose proof (resolve_chunk_spec item t s (Ok c) s' H) as [_ Hc].
  destruct (Hc c eq_refl) as [Hu Hin]. repeat split; [exact Hin | exact Hu|].
  intros content Ht. destruct t as [uid o]. cbn [snd] in Ht. subst o.
  rewrite resolve_chunk_new in H.
  destruct (chunk_uid_taken _ _); [discriminate|]. injection H as <- <-.
  unfold chunk_bytes. cbn [chunk_chunkFile storage].
  apply storage_open_saved.
Qed.

Lemma resolve_chunks_resolved item (l : list chunk_tuple) :
  forall s objs s',
    resolve_chunks item l s = (Ok objs, s') -> Forall2 (resolved s') objs l.
Proof.
  induction l as [|t l IH]; intros s objs s' H.
  - injection H as <- <-. constructor.
  - cbn [resolve_chunks] in H.
    apply bind_Ok in H as (c & s1 & E1 & H).
    apply bind_Ok in H as (rest & s2 & E2 & H). injection H as <- <-.
    constructor; [|now apply (IH s1)].
    apply (resolved_grow s1); [|now apply (resolve_chunk_resolved item t s)].
    now apply (resolve_chunks_spec item l s1 (Ok rest)).
Qed.

(** X9. Upload and lookup: after [process_revisions_for_item] has
    returned, every tuple [(uid, content)] of the chunk list has a chunk
    row with that uid whose stored bytes are the content. *)
Theorem inline_chunk_stored item rd s r s' uid content :
  process_revisions_for_item item rd s = (Ok r, s') ->
  In (uid, Some content) (chunks_relation rd) ->
  exists c,
    In c (chunks (db s')) /\ chunk_uid c = uid
    /\ chunk_bytes s' c = Some content.
Proof.
  intros H Hin.
  apply process_revisions_for_item_Ok in H
    as (objs & s1 & rels & E1 & _ & _ & -> & _).
  apply resolve_chunks_resolved in E1.
  assert (Hex : exists c, resolved s1 c (uid, Some content)).
  { clear -E1 Hin. induction E1 as [|c t objs l Hc _ IH]; [destruct Hin|].
    destruct Hin as [->|Hin]; [now exists c | now apply IH]. }
  destruct Hex as (c & H1 & H2 & H3). exists c.
  unfold chunk_bytes in *. cbn [db chunks storage set_relations set_revisions].
  split; [exact H1|]. split; [exact H2 | now apply H3].
Qed.

Lemma inline_chunk_stored_witness :
  exists c,
    In c (chunks (db (snd Scenario.created))) /\ chunk_uid c = "c1"%string
    /\ chunk_bytes (snd Scenario.created) c = Some Scenario.hello.
Proof.
  refine (inline_chunk_stored Scenario.item
            {| rd_uid := "r1"; rd_meta := list_byte_of_string "abc";
               rd_deleted := false;
               chunks_relation := [("c1"%string, Some Scenario.hello)] |}
            {| db := set_items empty_db [Scenario.item]; storage := [] |}
            {| rev_id := 1; rev_uid := "r1"; rev_item := 1;
               rev_meta := list_byte_of_string "abc";
               rev_current := Some true; rev_deleted := false |}
            (snd Scenario.created) "c1"%string Scenario.hello _ _).
  - reflexivity.
  - left. reflexivity.
Defined.

(** ** The serializers *)

Lemma map_content_replace_row (cr : CollectionItemRevision) revs :
  NoDup (map rev_id revs) -> In cr revs ->
  map revision_content (replace_row rev_id (set_current cr None) revs)
  = map revision_content revs.
Proof.
  intros Hnd Hcr. unfold replace_row. rewrite map_map.
  apply map_ext_in. intros x Hx.
  destruct (Z.eqb_spec (rev_id x) (rev_id (set_current cr None))) as [E|];
    [|reflexivity].
  cbn [set_current rev_id] in E.
  now rewrite (NoDup_pk_eq rev_id revs x cr Hnd Hx Hcr E).
Qed.

Lemma demote_and_build_history {A} item rd (instance : A) s a s' :
  NoDup (map rev_id (revisions (db s))) ->
  demote_and_build item rd instance s = (Ok a, s') ->
  exists r,
    map revision_content (revisions (db s'))
    = map revision_content (revisions (db s)) ++ [revision_content r]
    /\ rev_item r = item_id item /\ rev_uid r = rd_uid rd
    /\ forall x, In x (revisions (db s)) -> rev_item x <> item_id item ->
                 In x (revisions (db s')).
Proof.
  intros Hnd H.
  apply demote_and_build_Ok in H
    as (cr & r & Hcr & Hp & Hid & Hitem & Hcur & Huid & T & I & R).
  exists r. rewrite R, map_app, (map_content_replace_row cr _ Hnd Hcr).
  split; [reflexivity|]. split; [congruence|]. split; [exact Huid|].
  intros x Hx Hne. apply in_or_app. left.
  unfold replace_row. apply in_map_iff. exists x. split; [|exact Hx].
  destruct (Z.eqb_spec (rev_id x) (rev_id (set_current cr None))) as [E|];
    [|reflexivity].
  cbn [set_current rev_id] in E.
  rewrite (NoDup_pk_eq rev_id _ x cr Hnd Hx Hcr E) in Hne. congruence.
Qed.

(** X10. An update never rewrites history: after a successful
    [CollectionItemSerializer.update] on a table with distinct revision
    keys, the revision table is the old one, row for row with the same
    key, uid, item, meta and deleted flag, followed by the new revision;
    the rows of other items are the same rows, [current] included. *)
Theorem update_keeps_history instance vd s a s' :
  NoDup (map rev_id (revisions (db s))) ->
  CollectionItemSerializer.update instance vd s = (Ok a, s') ->
  exists r,
    map revision_content (revisions (db s'))
    = map revision_content (revisions (db s)) ++ [revision_content r]
    /\ rev_item r = item_id instance
    /\ rev_uid r = rd_uid (CollectionItemSerializer.content vd)
    /\ forall x, In x (revisions (db s)) -> rev_item x <> item_id instance ->
                 In x (revisions (db s')).
Proof.
  intros Hnd H. apply atomic_Ok in H.
  now apply (demote_and_build_history instance _ instance s a s').
Qed.

Lemma update_keeps_history_witness :
  exists r,
    map revision_content (revisions (db (snd Scenario.updated)))
    = map revision_content (revisions (db (snd Scenario.created)))
      ++ [revision_content r]
    /\ rev_item r = 1
    /\ rev_uid r = "r2"%string
    /\ forall x, In x (revisions (db (snd Scenario.created))) ->
                 rev_item x <> 1 ->
                 In x (revisions (db (snd Scenario.updated))).
Proof.
  apply (update_keeps_history Scenario.item
           (Scenario.payload "r2" [("c1"%string, None)])
           (snd Scenario.created) Scenario.item (snd Scenario.updated)).
  - vm_compute. repeat constructor. intros [].
  - reflexivity.
Defined.

(** X11. [CollectionItemSerializer.create] on a reachable state: the
    instance returned has a key no item had, its row is in the table with
    the fields of the payload, and its one current revision is the
    revision of the payload. *)
Theorem item_create_stores vd s instance s' :
  reachable s ->
  CollectionItemSerializer.create vd s = (Ok instance, s') ->
  In instance (items (db s'))
  /\ (forall i, In i (items (db s)) -> item_id i <> item_id instance)
  /\ item_uid instance = CollectionItemSerializer.uid vd
  /\ item_version instance = CollectionItemSerializer.version vd
  /\ item_encryptionKey instance = CollectionItemSerializer.encryptionKey vd
  /\ item_collection instance = CollectionItemSerializer.collection vd
  /\ exists r,
       current_revisions (item_id instance) (db s') = [r]
       /\ rev_uid r = rd_uid (CollectionItemSerializer.content vd)
       /\ rev_meta r = rd_meta (CollectionItemSerializer.content vd)
       /\ rev_deleted r = rd_deleted (CollectionItemSerializer.content vd).
Proof.
  intros R H. destruct (reachable_consistent s R) as (_ & Hfk & _).
  apply atomic_Ok in H.
  apply bind_Ok in H as (i & s1 & I & H).
  unfold CollectionItem_insert, write in I. injection I as <- <-.
  apply bind_Ok in H as (r & s2 & P & H). injection H as <- <-.
  apply process_revisions_for_item_tables in P as (-> & _ & _ & I & _ & Rv).
  cbn [db items revisions set_items] in *.
  assert (Hfresh : forall i, In i (items (db s)) ->
                     item_id i <> next_id (map item_id (items (db s)))).
  { intros i Hi E. apply (next_id_fresh (map item_id (items (db s)))).
    rewrite <- E. now apply in_map. }
  split; [rewrite I; apply in_or_app; right; now left|].
  split; [exact Hfresh|]. repeat (split; [reflexivity|]).
  match type of Rv with _ = _ ++ [?r] => exists r end.
  split; [|repeat split].
  change (current_revisions ?p (db s2)) with (currents p (revisions (db s2))).
  rewrite Rv, currents_app, currents_nil.
  - unfold currents. cbn [filter new_revision rev_item item_id].
    now rewrite Z.eqb_refl.
  - intros x Hx E. exfalso. cbn [item_id] in E.
    apply Hfk in Hx. rewrite E in Hx. apply in_map_iff in Hx as (i & Ei & Hi).
    now apply (Hfresh i Hi).
Qed.

Lemma item_create_stores_witness :
  In Scenario.item (items (db (snd Scenario.created)))
  /\ (forall i, In i (items (db initial)) -> item_id i <> 1)
  /\ item_uid Scenario.item = Some "i1"%string
  /\ item_version Scenario.item = 1
  /\ item_encryptionKey Scenario.item = None
  /\ item_collection Scenario.item = 1
  /\ exists r,
       current_revisions 1 (db (snd Scenario.created)) = [r]
       /\ rev_uid r = "r1"%string
       /\ rev_meta r = list_byte_of_string "abc"
       /\ rev_deleted r = false.
Proof.
  apply (item_create_stores
           (Scenario.payload "r1" [("c1"%string, Some Scenario.hello)])
           initial Scenario.item (snd Scenario.created)).
  - constructor.
  - reflexivity.
Defined.

Lemma filter_none {A} (f : A -> bool) (l : list A) :
  (forall x, In x l -> f x = false) -> filter f l = [].
Proof.
  induction l as [|x l IH]; intros H; [reflexivity|].
  cbn [filter]. rewrite (H x (or_introl eq_refl)).
  apply IH. intros y Hy. apply H. now right.
Qed.

Lemma collection_create_member vd s instance s' :
  CollectionSerializer.create vd s = (Ok instance, s') ->
  col_id instance = next_id (map col_id (collections (db s)))
  /\ exists member,
       members (db s') = members (db s) ++ [member]
       /\ mem_collection member = col_id instance
       /\ mem_user member = CollectionSerializer.owner vd
       /\ mem_accessLevel member = ADMIN
       /\ mem_encryptionKey member = CollectionSerializer.encryptionKey vd.
Proof.
  intros H. apply atomic_Ok in H.
  apply bind_Ok in H as (c & s1 & I1 & H).
  unfold Collection_insert, write in I1. injection I1 as <- <-.
  apply bind_Ok in H as (i & s2 & I2 & H).
  unfold CollectionItem_insert, write in I2. injection I2 as <- <-.
  apply bind_Ok in H as (r & s3 & P & H).
  apply process_revisions_for_item_tables in P as (_ & _ & _ & _ & M & _).
  apply bind_Ok in H as ([] & s4 & S & H).
  unfold Collection_save, write in S. injection S as <-.
  apply bind_Ok in H as (m & s5 & I3 & H).
  unfold CollectionMember_insert, write in I3. injection I3 as <- <-.
  injection H as <- <-.
  split; [reflexivity|]. eexists.
  cbn [db members set_members set_collections]. rewrite M.
  cbn [db members set_items set_collections].
  split; [reflexivity|]. repeat split.
Qed.

Lemma members_get_last (instance : Collection) (u : Z) (d : database)
  (old : list CollectionMember) (member : CollectionMember) :
  members d = old ++ [member] ->
  (forall m, In m old -> mem_collection m <> col_id instance) ->
  mem_collection member = col_id instance -> mem_user member = Some u ->
  members_get instance {| req_user := u |} d = Ok member.
Proof.
  intros E Hold Hc Hu. unfold members_get. rewrite E, filter_app.
  cbn [filter req_user]. rewrite Hc, Hu, !Z.eqb_refl. cbn [andb].
  rewrite filter_none; [reflexivity|].
  intros x Hx. now rewrite (proj2 (Z.eqb_neq _ _) (Hold x Hx)).
Qed.

(** X12. The owner reads back what [CollectionSerializer.create] stored:
    when every member row belongs to a collection of the table, then after
    a successful [create] with owner [u], a serializer whose request is
    [u]'s gets the payload's encryption key from
    [CollectionEncryptionKeyField.get_attribute] and [ADMIN] from
    [get_access_level_from_context]. *)
Theorem owner_reads_membership vd s instance s' u inline :
  (forall m, In m (members (db s)) ->
             In (mem_collection m) (map col_id (collections (db s)))) ->
  CollectionSerializer.create vd s = (Ok instance, s') ->
  CollectionSerializer.owner vd = Some u ->
  let context := {| ctx_request := Some {| req_user := u |};
                    ctx_inline := inline |} in
  CollectionEncryptionKeyField_get_attribute context instance (db s')
  = Ok (Some (CollectionSerializer.encryptionKey vd))
  /\ get_access_level_from_context context instance (db s')
     = Ok (Some ADMIN).
Proof.
  intros Hfk H Hu context.
  apply collection_create_member in H
    as (Hid & member & M & Hc & Hm & Ha & Hk).
  assert (G : members_get instance {| req_user := u |} (db s') = Ok member).
  { apply (members_get_last instance u (db s') (members (db s)));
      [exact M | | exact Hc | congruence].
    intros m Hin E. apply (next_id_fresh (map col_id (collections (db s)))).
    rewrite <- Hid, <- E. now apply Hfk. }
  unfold CollectionEncryptionKeyField_get_attribute,
    get_access_level_from_context, context. cbn [ctx_request].
  rewrite G, Hk, Ha. split; reflexivity.
Qed.

Lemma owner_reads_membership_witness :
  let after := snd (CollectionSerializer.create Scenario.bootstrap initial) in
  let context := {| ctx_request := Some {| req_user := 7 |};
                    ctx_inline := None |} in
  CollectionEncryptionKeyField_get_attribute context Scenario.collection_row
    (db after) = Ok (Some (list_byte_of_string "key"))
  /\ get_access_level_from_context context Scenario.collection_row (db after)
     = Ok (Some ADMIN).
Proof.
  apply (owner_reads_membership Scenario.bootstrap initial
           Scenario.collection_row
           (snd (CollectionSerializer.create Scenario.bootstrap initial))
           7 None).
  - intros m [].
  - reflexivity.
  - reflexivity.
Defined.

(** ** Reading chunks back *)

(** X13. The chunk field, out and in again: for a join row whose chunk is
    in the table with stored bytes, the inline representation is a pair
    that [to_internal_value] takes back to the uid and the bytes; the
    representation without [inline] is the one-element [(uid,)], which
    [to_internal_value] refuses with [IndexError]. *)
Theorem chunks_field_out_and_in context obj s c content :
  filter (fun x => chunk_id x =? rel_chunk obj) (chunks (db s)) = [c] ->
  chunk_bytes s c = Some content ->
  match ctx_inline context with
  | Some true =>
      exists text,
        ChunksField_to_representation context obj s
        = Returned (chunk_uid c, Some text)
        /\ ChunksField.to_internal_value
             (chunk_tuple_json (chunk_uid c, Some text))
           = Ok (chunk_uid c, Some content)
  | _ =>
      ChunksField_to_representation context obj s
      = Returned (chunk_uid c, None)
      /\ ChunksField.to_internal_value (chunk_tuple_json (chunk_uid c, None))
         = Raise IndexError
  end.
Proof.
  intros Hc Hb. unfold ChunksField_to_representation. rewrite Hc.
  cbn [QuerySet.get]. unfold chunk_bytes in Hb.
  destruct (ctx_inline context) as [[|]|]; [| split; reflexivity ..].
  rewrite Hb.
  destruct (CodecFacts.b64encode_b64decode content) as (text & _ & He & Hd).
  exists (string_of_list_byte text). rewrite He. split; [reflexivity|].
  unfold ChunksField.to_internal_value. cbn [chunk_tuple_json nth_error].
  now rewrite Hd.
Qed.

Lemma chunks_field_out_and_in_witness :
  exists text,
    ChunksField_to_representation
      {| ctx_request := None; ctx_inline := Some true |}
      {| rel_id := 1; rel_chunk := 1; rel_revision := 1 |}
      (snd Scenario.created)
    = Returned ("c1"%string, Some text)
    /\ ChunksField.to_internal_value
         (chunk_tuple_json ("c1"%string, Some text))
       = Ok ("c1"%string, Some Scenario.hello).
Proof.
  apply (chunks_field_out_and_in
           {| ctx_request := None; ctx_inline := Some true |}
           {| rel_id := 1; rel_chunk := 1; rel_revision := 1 |}
           (snd Scenario.created)
           {| chunk_id := 1; chunk_uid := "c1"; chunk_item := 1;
              chunk_chunkFile := 1 |} Scenario.hello);
    reflexivity.
Defined.

Lemma resolve_chunk_keys item t s res s' :
  resolve_chunk item t s = (res, s') ->
  NoDup (map chunk_id (chunks (db s))) ->
  NoDup (map chunk_id (chunks (db s'))).
Proof.
  destruct t as [uid [content|]].
  - rewrite resolve_chunk_new.
    destruct (chunk_uid_taken _ _); intros [= <- <-] Hnd; [exact Hnd|].
    cbn [db chunks set_chunks]. rewrite map_app. cbn [map chunk_id].
    now apply NoDup_snoc_fresh.
  - unfold resolve_chunk, bind, query. cbn [fst snd].
    destruct (QuerySet.get _); unfold ret, raise; now intros [= <- <-].
Qed.

Lemma resolve_chunks_keys item (l : list chunk_tuple) :
  forall s res s',
    resolve_chunks item l s = (res, s') ->
    NoDup (map chunk_id (chunks (db s))) ->
    NoDup (map chunk_id (chunks (db s'))).
Proof.
  induction l as [|t l IH]; intros s res s' H Hnd.
  - now injection H as _ <-.
  - cbn [resolve_chunks] in H. unfold bind at 1 in H.
    destruct (resolve_chunk item t s) as [[c|e] s1] eqn:E1.
    + apply resolve_chunk_keys in E1; [|exact Hnd]. unfold bind in H.
      destruct (resolve_chunks item l s1) as [[objs|e] s2] eqn:E2;
        apply IH in E2; try exact E1; now injection H as _ <-.
    + apply resolve_chunk_keys in E1; [|exact Hnd]. now injection H as _ <-.
Qed.

Lemma filter_by_key (l : list CollectionItemChunk) (c : CollectionItemChunk) :
  NoDup (map chunk_id l) -> In c l ->
  filter (fun x => chunk_id x =? chunk_id c) l = [c].
Proof.
  induction l as [|x l IH]; intros Hnd Hc; [destruct Hc|].
  cbn [map] in Hnd. inversion Hnd as [|? ? Hx Hnd']; subst.
  cbn [filter]. destruct Hc as [->|Hc].
  - rewrite Z.eqb_refl. f_equal. apply filter_none.
    intros y Hy. apply Z.eqb_neq. intros E. apply Hx. rewrite <- E.
    now apply in_map.
  - destruct (Z.eqb_spec (chunk_id x) (chunk_id c)) as [E|]; [|now apply IH].
    exfalso. apply Hx. rewrite E. now apply in_map.
Qed.

Lemma Forall2_links {A B C} (f : A -> C) (g : B -> C) (la : list A) :
  forall lb, map f la = map g lb -> Forall2 (fun a b => f a = g b) la lb.
Proof.
  induction la as [|a la IH]; intros [|b lb] E; try discriminate;
    [constructor|].
  injection E as E1 E2. constructor; [exact E1 | now apply IH].
Qed.

Lemma Forall2_compose {A B C} (P : A -> B -> Prop) (Q : B -> C -> Prop)
  (R : A -> C -> Prop) :
  (forall a b c, P a b -> Q b c -> R a c) ->
  forall la lb lc, Forall2 P la lb -> Forall2 Q lb lc -> Forall2 R la lc.
Proof.
  intros H la lb lc HP. revert lc.
  induction HP as [|a b la lb Hab _ IH]; intros lc HQ;
    inversion HQ; subst; constructor; eauto.
Qed.

(** X14. Upload, then download: on a table with distinct chunk keys,
    the join rows [process_revisions_for_item] has created represent, in
    the order of the chunk list, the uid of each tuple, and inline the
    text of the content for each tuple that brought its content. *)
Theorem uploaded_chunks_read_back item rd s r s' request :
  NoDup (map chunk_id (chunks (db s))) ->
  process_revisions_for_item item rd s = (Ok r, s') ->
  exists rels,
    relations (db s') = relations (db s) ++ rels
    /\ Forall2
         (fun rel t =>
            ChunksField_to_representation
              {| ctx_request := request; ctx_inline := None |} rel s'
            = Returned (fst t, None)
            /\ forall content,
                 snd t = Some content ->
                 exists text,
                   b64encode content = Ok text
                   /\ ChunksField_to_representation
                        {| ctx_request := request; ctx_inline := Some true |}
                        rel s'
                      = Returned (fst t, Some text))
         rels (chunks_relation rd).
Proof.
  intros Hnd H.
  apply process_revisions_for_item_Ok in H
    as (objs & s1 & rels & E1 & _ & _ & -> & L & _).
  pose proof (resolve_chunks_keys item _ s _ s1 E1 Hnd) as Hnd1.
  apply resolve_chunks_resolved in E1.
  exists rels. cbn [db relations set_relations]. split; [reflexivity|].
  apply Forall2_links in L.
  refine (Forall2_compose _ _ _ _ rels objs _ L E1).
  intros rel c t Hrel (Hin & Hu & Hb). injection Hrel as _ Hrel.
  unfold ChunksField_to_representation, chunk_bytes in *.
  cbn [db chunks storage set_relations set_revisions ctx_inline].
  rewrite Hrel, (filter_by_key _ c Hnd1 Hin). cbn [QuerySet.get].
  rewrite Hu. split; [reflexivity|].
  intros content Hc. rewrite (Hb content Hc).
  destruct (CodecFacts.b64encode_b64decode content) as (text & _ & He & _).
  exists (string_of_list_byte text). now rewrite He.
Qed.

Lemma uploaded_chunks_read_back_witness :
  exists rels,
    relations (db (snd Scenario.created)) = [] ++ rels
    /\ Forall2
         (fun rel t =>
            ChunksField_to_representation
              {| ctx_request := None; ctx_inline := None |} rel
              (snd Scenario.created)
            = Returned (fst t, None)
            /\ forall content,
                 snd t = Some content ->
                 exists text,
                   b64encode content = Ok text
                   /\ ChunksField_to_representation
                        {| ctx_request := None; ctx_inline := Some true |}
                        rel (snd Scenario.created)
                      = Returned (fst t, Some text))
         rels [("c1"%string, Some Scenario.hello)].
Proof.
  refine (uploaded_chunks_read_back Scenario.item
            {| rd_uid := "r1"; rd_meta := list_byte_of_string "abc";
               rd_deleted := false;
               chunks_relation := [("c1"%string, Some Scenario.hello)] |}
            {| db := set_items empty_db [Scenario.item]; storage := [] |}
            {| rev_id := 1; rev_uid := "r1"; rev_item := 1;
               rev_meta := list_byte_of_string "abc";
               rev_current := Some true; rev_deleted := false |}
            (snd Scenario.created) None _ _).
  - constructor.
  - reflexivity.
Defined.

(** ** The change tag, failures and progress *)

Lemma outside_collection obj d (p : Z) (x : CollectionItemRevision) :
  (forall i, In i (items d) -> item_id i = p ->
             item_collection i <> col_id obj) ->
  rev_item x = p -> CollectionSerializer.in_collection obj d x = false.
Proof.
  intros H E. unfold CollectionSerializer.in_collection.
  destruct (existsb _ (items d)) eqn:X; [|reflexivity].
  apply existsb_exists in X as (i & Hi & Hb).
  apply andb_true_iff in Hb as [H1 H2].
  apply Z.eqb_eq in H1, H2. exfalso. apply (H i Hi); congruence.
Qed.

(** X15. The change tag of a collection is untouched by an update of an
    item of another collection: [get_ctag] gives the same before and after
    [CollectionItemSerializer.update], whether it returns or raises. *)
Theorem ctag_other_collection obj instance vd s res s' :
  NoDup (map rev_id (revisions (db s))) ->
  (forall i, In i (items (db s)) -> item_id i = item_id instance ->
             item_collection i <> col_id obj) ->
  CollectionItemSerializer.update instance vd s = (res, s') ->
  CollectionSerializer.get_ctag obj (db s')
  = CollectionSerializer.get_ctag obj (db s).
Proof.
  intros Hnd Hout H. destruct res as [a|e];
    [|apply atomic_Raise in H; now rewrite H].
  apply atomic_Ok in H.
  apply demote_and_build_Ok in H
    as (cr & r & Hcr & Hp & _ & Hitem & _ & _ & _ & I & R).
  unfold CollectionSerializer.get_ctag.
  rewrite R, (in_collection_items obj (db s) (db s') I), filter_app.
  cbn [filter].
  rewrite (outside_collection obj (db s) (item_id instance) r Hout)
    by congruence.
  rewrite app_nil_r, (filter_replace_row rev_id); [reflexivity | |].
  - now apply (outside_collection obj (db s) (item_id instance)).
  - intros x Hx E. cbn [set_current rev_id] in E.
    rewrite (NoDup_pk_eq rev_id _ x cr Hnd Hx Hcr E).
    now apply (outside_collection obj (db s) (item_id instance)).
Qed.

Lemma ctag_other_collection_witness :
  CollectionSerializer.get_ctag
    {| col_id := 2; col_uid := "col2"; col_version := 1; col_owner := None;
       col_mainItem := None |} (db (snd Scenario.updated))
  = CollectionSerializer.get_ctag
      {| col_id := 2; col_uid := "col2"; col_version := 1; col_owner := None;
         col_mainItem := None |} (db (snd Scenario.created)).
Proof.
  apply (ctag_other_collection _ Scenario.item
           (Scenario.payload "r2" [("c1"%string, None)])
           (snd Scenario.created) (fst Scenario.updated)).
  - vm_compute. repeat constructor. intros [].
  - vm_compute. intros i [<-|[]] _. discriminate.
  - apply surjective_pairing.
Defined.

Lemma resolve_chunk_exceptions item t s e s' :
  resolve_chunk item t s = (Raise e, s') -> storage_exception e.
Proof.
  destruct t as [uid [content|]].
  - rewrite resolve_chunk_new. destruct (chunk_uid_taken _ _); [|discriminate].
    intros [= <- _]. right. now right.
  - unfold resolve_chunk, bind, query. cbn [fst snd].
    unfold QuerySet.get. destruct (filter _ _) as [|c [|c' l]];
      unfold ret, raise; intros [= <- _]; [now left | right; now left].
Qed.

Lemma resolve_chunks_exceptions item (l : list chunk_tuple) :
  forall s e s', resolve_chunks item l s = (Raise e, s') -> storage_exception e.
Proof.
  induction l as [|t l IH]; intros s e s' H; [discriminate|].
  cbn [resolve_chunks] in H.
  apply bind_Raise in H as [H|(c & s1 & _ & H)];
    [exact (resolve_chunk_exceptions item t s e s' H)|].
  apply bind_Raise in H as [H|(objs & s2 & _ & H)];
    [exact (IH s1 e s' H) | discriminate].
Qed.

Lemma currents_one p revs :
  List.length (currents p revs) = 1%nat ->
  exists cr, currents p revs = [cr] /\ In cr revs /\ rev_item cr = p
             /\ QuerySet.first rev_id (currents p revs) = Some cr.
Proof.
  intros H. destruct (currents p revs) as [|cr [|x l]] eqn:E; try discriminate.
  exists cr. split; [reflexivity|].
  assert (Hin : In cr (currents p revs)) by (rewrite E; now left).
  apply filter_In in Hin as [Hin Hb]. apply andb_true_iff in Hb as [Hb _].
  apply Z.eqb_eq in Hb. now repeat split.
Qed.

Lemma demote_and_build_raises {A} item rd (instance : A) s e s' :
  consistent (db s) -> In item (items (db s)) ->
  demote_and_build item rd instance s = (Raise e, s') ->
  storage_exception e.
Proof.
  intros (_ & _ & Hone) Hitem H.
  destruct (currents_one _ _ (Hone item Hitem)) as (cr & _ & _ & _ & F).
  unfold demote_and_build in H.
  apply bind_Raise in H as [H|(found & s0 & Q & H)]; [discriminate|].
  unfold query in Q. injection Q as <- <-.
  change (current_revisions (item_id item) (db s))
    with (currents (item_id item) (revisions (db s))) in H.
  rewrite F in H.
  apply bind_Raise in H as [H|(u & s1 & _ & H)].
  - unfold CollectionItemRevision_save, write in H.
    rewrite current_taken_None in H. discriminate.
  - apply bind_Raise in H as [H|(r & s2 & _ & H)]; [|discriminate].
    unfold process_revisions_for_item in H.
    apply bind_Raise in H as [H|(objs & s3 & _ & H)];
      [exact (resolve_chunks_exceptions item _ s1 e s' H)|].
    apply bind_Raise in H as [H|(r & s4 & _ & H)].
    + unfold CollectionItemRevision_insert, write in H.
      destruct (current_taken _ _); [|discriminate].
      injection H as <- _. right. now right.
    + apply bind_Raise in H as [H|(u' & s5 & _ & H)]; [|discriminate].
      destruct (create_relations_spec r objs s4) as (rels & C & _).
      rewrite C in H. discriminate.
Qed.

(** X17. On a reachable database the current revision of an item of the
    table is always found: when [CollectionItemSerializer.update] raises
    there, the exception comes from the chunk list or from a constraint
    and is never the [AttributeError] of a missing current revision. *)
Theorem update_finds_current item vd s e s' :
  reachable s -> In item (items (db s)) ->
  CollectionItemSerializer.update item vd s = (Raise e, s') ->
  e = DoesNotExist \/ e = MultipleObjectsReturned \/ e = IntegrityError.
Proof.
  intros R Hitem H. rewrite item_update_body in H.
  unfold atomic in H.
  destruct (demote_and_build item _ item s) as [[a|e1] s1] eqn:E;
    [discriminate|].
  injection H as <- _.
  exact (demote_and_build_raises item _ item s e1 s1
           (reachable_consistent s R) Hitem E).
Qed.

Lemma update_finds_current_witness :
  DoesNotExist = DoesNotExist \/ DoesNotExist = MultipleObjectsReturned
  \/ DoesNotExist = IntegrityError.
Proof.
  apply (update_finds_current Scenario.item
           (Scenario.payload "r3" [("c2"%string, None)])
           (snd Scenario.updated) DoesNotExist (snd Scenario.updated)).
  - exact scenario_reachable.
  - left. reflexivity.
  - reflexivity.
Defined.

Lemma resolve_references_found (item : CollectionItem) (l : list chunk_tuple)
  (s : state) :
  Forall (fun t =>
            snd t = None
            /\ exists c,
                 filter (fun x => String.eqb (chunk_uid x) (fst t))
                   (chunks (db s)) = [c]) l ->
  exists objs, resolve_chunks item l s = (Ok objs, s).
Proof.
  induction 1 as [|[uid content] l (Hc & c & F) _ (objs & IH)].
  - now exists [].
  - cbn [fst snd] in *. subst content. exists (c :: objs).
    cbn [resolve_chunks]. unfold bind at 1.
    unfold resolve_chunk, bind, query. cbn [fst snd]. rewrite F.
    cbn [QuerySet.get]. unfold ret. now rewrite IH.
Qed.

Lemma process_references_succeed item rd s :
  Forall (fun t =>
            snd t = None
            /\ exists c,
                 filter (fun x => String.eqb (chunk_uid x) (fst t))
                   (chunks (db s)) = [c]) (chunks_relation rd) ->
  current_taken (new_revision item rd (db s)) (revisions (db s)) = false ->
  exists r s', process_revisions_for_item item rd s = (Ok r, s').
Proof.
  intros Hfound T.
  destruct (resolve_references_found item _ s Hfound) as (objs & E).
  unfold process_revisions_for_item. unfold bind at 1. rewrite E.
  unfold bind at 1. unfold CollectionItemRevision_insert, write.
  fold (new_revision item rd (db s)). rewrite T.
  unfold bind.
  match goal with |- context [create_relations ?r ?o ?st] =>
    destruct (create_relations_spec r o st) as (rels & C & _) end.
  rewrite C. unfold ret. eexists _, _. reflexivity.
Qed.

Lemma In_replace_row_kept {A} (pk : A -> Z) (r x : A) (l : list A) :
  In x (replace_row pk r l) -> x = r \/ (In x l /\ pk x <> pk r).
Proof.
  unfold replace_row. rewrite in_map_iff. intros (y & E & Hy).
  destruct (Z.eqb_spec (pk y) (pk r)); subst; auto.
Qed.

Lemma current_free_after_demotion (cr r : CollectionItemRevision) revs :
  currents (rev_item cr) revs = [cr] ->
  rev_item r = rev_item cr -> rev_current r = Some true ->
  current_taken r (replace_row rev_id (set_current cr None) revs) = false.
Proof.
  intros Hone Hitem Hcur. unfold current_taken.
  destruct (existsb _ _) eqn:X; [|reflexivity]. exfalso.
  apply existsb_exists in X as (x & Hx & Hb).
  apply andb_true_iff in Hb as [Hb Hsame].
  apply andb_true_iff in Hb as [_ Hi]. apply Z.eqb_eq in Hi.
  rewrite Hcur, is_current_same in Hsame.
  apply In_replace_row_kept in Hx as [->|[Hx Hpk]]; [discriminate|].
  assert (Hin : In x (currents (rev_item cr) revs)).
  { apply filter_In. split; [exact Hx|].
    now rewrite Hsame, <- Hitem, Hi, Z.eqb_refl. }
  rewrite Hone in Hin. destruct Hin as [<-|[]]. now apply Hpk.
Qed.

(** X18. Progress of an update by reference: on a reachable database,
    for an item of the table and a chunk list of references each of which
    names exactly one chunk, [CollectionItemSerializer.update] returns the
    instance, and the revision of the payload is then the item's current
    revision. *)
Theorem update_with_references_succeeds item vd s :
  reachable s -> In item (items (db s)) ->
  Forall (fun t =>
            snd t = None
            /\ exists c,
                 filter (fun x => String.eqb (chunk_uid x) (fst t))
                   (chunks (db s)) = [c])
    (chunks_relation (CollectionItemSerializer.content vd)) ->
  exists s',
    CollectionItemSerializer.update item vd s = (Ok item, s')
    /\ exists r,
         current_revisions (item_id item) (db s') = [r]
         /\ rev_uid r = rd_uid (CollectionItemSerializer.content vd).
Proof.
  intros R Hitem Hfound.
  destruct (reachable_consistent s R) as (_ & _ & Hone).
  destruct (currents_one _ _ (Hone item Hitem)) as (cr & E & Hcr & Hp & F).
  assert (H : exists s', CollectionItemSerializer.update item vd s
                         = (Ok item, s')).
  { rewrite item_update_body. unfold atomic, demote_and_build.
    unfold bind at 1. unfold query.
    change (current_revisions (item_id item) (db s))
      with (currents (item_id item) (revisions (db s))).
    rewrite F. unfold bind at 1.
    unfold CollectionItemRevision_save, write.
    rewrite current_taken_None. unfold save_row.
    rewrite (has_pk_In rev_id cr _ Hcr : has_pk rev_id
               (rev_id (set_current cr None)) (revisions (db s)) = true).
    set (s1 := {| db := set_revisions (db s)
                          (replace_row rev_id (set_current cr None)
                             (revisions (db s)));
                  storage := storage s |}).
    destruct (process_references_succeed item
                (CollectionItemSerializer.content vd) s1) as (r & s2 & P).
    - exact Hfound.
    - cbn [db revisions set_revisions s1].
      apply current_free_after_demotion;
        [now rewrite Hp | now rewrite Hp | reflexivity].
    - unfold bind. rewrite P. unfold ret. eauto. }
  destruct H as (s' & H). exists s'. split; [exact H|].
  apply (item_update_current item vd s item s' H).
Qed.

Lemma update_with_references_succeeds_witness :
  exists s',
    CollectionItemSerializer.update Scenario.item
      (Scenario.payload "r3" [("c1"%string, None); ("c1"%string, None)])
      (snd Scenario.updated) = (Ok Scenario.item, s')
    /\ exists r,
         current_revisions 1 (db s') = [r] /\ rev_uid r = "r3"%string.
Proof.
  apply (update_with_references_succeeds Scenario.item
           (Scenario.payload "r3" [("c1"%string, None); ("c1"%string, None)])
           (snd Scenario.updated)).
  - exact scenario_reachable.
  - left. reflexivity.
  - repeat constructor; eexists; reflexivity.
Defined.

(** A new revision of an item of the collection is what [get_ctag] gives
    next. *)
Lemma get_ctag_appended obj (d d' : database) revs1 r :
  items d' = items d ->
  revisions d' = revs1 ++ [r] ->
  (forall x, In x revs1 -> rev_id x < rev_id r) ->
  (exists i, In i (items d) /\ item_id i = rev_item r
             /\ item_collection i = col_id obj) ->
  CollectionSerializer.get_ctag obj d' = Some (rev_uid r).
Proof.
  intros I R Hlt (i & Hi & Hid & Hcol).
  unfold CollectionSerializer.get_ctag.
  rewrite R, (in_collection_items obj d d' I), filter_app. cbn [filter].
  assert (Hc : CollectionSerializer.in_collection obj d r = true).
  { apply existsb_exists. exists i. split; [exact Hi|].
    now rewrite Hid, Hcol, !Z.eqb_refl. }
  rewrite Hc, (last_app rev_id); [reflexivity|].
  intros x Hx. apply filter_In in Hx as [Hx _]. now apply Hlt.
Qed.

Lemma demote_and_build_ctag {A} obj item rd (instance : A) s a s' :
  demote_and_build item rd instance s = (Ok a, s') ->
  (exists i, In i (items (db s)) /\ item_id i = item_id item
             /\ item_collection i = col_id obj) ->
  CollectionSerializer.get_ctag obj (db s') = Some (rd_uid rd).
Proof.
  intros H Hin.
  apply demote_and_build_Ok in H
    as (cr & r & Hcr & Hp & Hid & Hitem & _ & Huid & _ & I & R).
  rewrite <- Huid.
  apply (get_ctag_appended obj (db s) (db s') _ r I R).
  - intros x Hx. rewrite Hid. apply next_id_above.
    rewrite <- (map_pk_replace_row rev_id (set_current cr None)).
    now apply in_map.
  - destruct Hin as (i & Hi & Hii & Hc). exists i. repeat split; congruence.
Qed.

(** X19. The change tag follows the writes: after a successful item
    [create] in a collection, item [update] of one of its items, or
    collection [update] whose main item belongs to the collection,
    [get_ctag] of the collection is the uid of the revision of the
    payload. *)
Theorem ctag_follows_writes (obj : Collection) (s : state) :
  (forall vd instance s',
     CollectionItemSerializer.create vd s = (Ok instance, s') ->
     CollectionItemSerializer.collection vd = col_id obj ->
     CollectionSerializer.get_ctag obj (db s')
     = Some (rd_uid (CollectionItemSerializer.content vd)))
  /\ (forall item vd a s',
        CollectionItemSerializer.update item vd s = (Ok a, s') ->
        (exists i, In i (items (db s)) /\ item_id i = item_id item
                   /\ item_collection i = col_id obj) ->
        CollectionSerializer.get_ctag obj (db s')
        = Some (rd_uid (CollectionItemSerializer.content vd)))
  /\ (forall vd a s',
        CollectionSerializer.update obj vd s = (Ok a, s') ->
        (forall i, In i (items (db s)) ->
                   col_mainItem obj = Some (item_id i) ->
                   item_collection i = col_id obj) ->
        CollectionSerializer.get_ctag obj (db s')
        = Some (rd_uid (CollectionSerializer.content vd))).
Proof.
  repeat split.
  - intros vd instance s' H Hcol. apply atomic_Ok in H.
    apply bind_Ok in H as (i & s1 & I & H).
    unfold CollectionItem_insert, write in I. injection I as <- <-.
    apply bind_Ok in H as (r & s2 & P & H). injection H as _ <-.
    apply process_revisions_for_item_tables in P as (-> & _ & _ & I & _ & R).
    match type of I with _ = items ?d =>
      apply (get_ctag_appended obj d (db s2) _ _ I R) end.
    + intros x Hx. cbn [new_revision rev_id]. apply next_id_above.
      now apply in_map.
    + eexists. cbn [db items set_items].
      split; [apply in_or_app; right; now left|]. now split.
  - intros item vd a s' H Hin. apply atomic_Ok in H.
    now apply (demote_and_build_ctag obj item _ item s a s').
  - intros vd a s' H Hmain. rewrite collection_update_body in H.
    apply atomic_Ok in H. apply bind_Ok in H as (mi & s1 & Q & H).
    unfold CollectionSerializer.mainItem in Q.
    destruct (col_mainItem obj) as [id|] eqn:Em;
      [|injection Q as <- <-; discriminate].
    apply bind_Ok in Q as (x & s2 & Q1 & Q2).
    unfold query in Q1. injection Q1 as <- <-.
    unfold QuerySet.get in Q2.
    destruct (filter _ _) as [|main [|y l]] eqn:F; try discriminate.
    injection Q2 as <- <-.
    assert (Hin : In main (filter (fun x => item_id x =? id) (items (db s))))
      by (rewrite F; now left).
    apply filter_In in Hin as [Hin Hid]. apply Z.eqb_eq in Hid.
    apply (demote_and_build_ctag obj main _ obj s a s' H).
    exists main. repeat split; [exact Hin|].
    apply Hmain; [exact Hin | now rewrite Hid].
Qed.

(** A failed write changes no table: when the item [create], the
    item [update] or the collection [update] raises, the database is the
    one before the call; in particular a demoted revision is current
    again. *)
Theorem failed_write_rolls_back (s : state) :
  (forall vd e s',
     CollectionItemSerializer.create vd s = (Raise e, s') -> db s' = db s)
  /\ (forall instance vd e s',
        CollectionItemSerializer.update instance vd s = (Raise e, s') ->
        db s' = db s)
  /\ (forall instance vd e s',
        CollectionSerializer.update instance vd s = (Raise e, s') ->
        db s' = db s).
Proof.
  repeat split; intros; eapply atomic_Raise; eassumption.
Qed.

Example failed_update_keeps_current :
  CollectionItemSerializer.update Scenario.item
    (Scenario.payload "r3" [("c9"%string, Some [x01]); ("c2"%string, None)])
    (snd Scenario.updated)
  = (Raise DoesNotExist,
     {| db := db (snd Scenario.updated);
        storage := storage (snd Scenario.updated) ++ [(2, [x01])] |}).
Proof. reflexivity. Qed.

(** ** Chunks are never rewritten *)

Lemma chunks_kept_refl s : chunks_kept s s.
Proof. split; exists []; now rewrite app_nil_r. Qed.

Lemma chunks_kept_trans s1 s2 s3 :
  chunks_kept s1 s2 -> chunks_kept s2 s3 -> chunks_kept s1 s3.
Proof.
  intros [[l1 A1] [f1 A2]] [[l2 B1] [f2 B2]]. split.
  - exists (l1 ++ l2). now rewrite B1, A1, app_assoc.
  - exists (f1 ++ f2). now rewrite B2, A2, app_assoc.
Qed.

Section KeepsChunks.
Context {A B : Type}.

Lemma keeps_ret (a : A) : keeps_chunks (ret a).
Proof. intros s res s' [= _ <-]. apply chunks_kept_refl. Qed.

Lemma keeps_raise (e : exn) : keeps_chunks (@raise A e).
Proof. intros s res s' [= _ <-]. apply chunks_kept_refl. Qed.

Lemma keeps_query (q : database -> A) : keeps_chunks (query q).
Proof. intros s res s' [= _ <-]. apply chunks_kept_refl. Qed.

Lemma keeps_bind (m : M A) (k : A -> M B) :
  keeps_chunks m -> (forall a, keeps_chunks (k a)) -> keeps_chunks (bind m k).
Proof.
  intros Hm Hk s res s'. unfold bind.
  destruct (m s) as [[a|e] s1] eqn:E; intros H.
  - apply (chunks_kept_trans s s1); [now apply (Hm s (Ok a)) |].
    now apply (Hk a s1 res).
  - injection H as _ <-. now apply (Hm s (Raise e)).
Qed.

Lemma keeps_atomic (m : M A) : keeps_chunks m -> keeps_chunks (atomic m).
Proof.
  intros Hm s res s'. unfold atomic.
  destruct (m s) as [[a|e] s1] eqn:E; intros [= _ <-].
  - now apply (Hm s (Ok a)).
  - destruct (Hm s (Raise e) s1 E) as [_ Hf]. split; [|exact Hf].
    exists []. cbn [db]. now rewrite app_nil_r.
Qed.

(** A write to another table. *)
Lemma keeps_write (w : database -> result (A * database)) :
  (forall d a d', w d = Ok (a, d') -> chunks d' = chunks d) ->
  keeps_chunks (write w).
Proof.
  intros Hw s res s'. unfold write.
  destruct (w (db s)) as [[a d']|e] eqn:E; intros [= _ <-].
  - split; [|exists []; cbn [storage]; now rewrite app_nil_r].
    exists []. cbn [db]. now rewrite (Hw _ _ _ E), app_nil_r.
  - apply chunks_kept_refl.
Qed.
End KeepsChunks.

Lemma keeps_process_revisions item rd :
  keeps_chunks (process_revisions_for_item item rd).
Proof.
  unfold process_revisions_for_item.
  apply keeps_bind.
  - intros s res s' H.
    apply resolve_chunks_spec in H as [(_ & _ & _ & _ & _ & G1 & G2) _].
    now split.
  - intros objs. apply keeps_bind.
    + apply keeps_write. intros d a d'. cbv beta zeta.
      destruct (current_taken _ (revisions d));
        [discriminate | now intros [= _ <-]].
    + intros r. apply keeps_bind; [|intros; apply keeps_ret].
      intros s res s' H.
      destruct (create_relations_spec r objs s) as (rels & C & _).
      rewrite C in H. injection H as _ <-.
      split; exists []; cbn; now rewrite app_nil_r.
Qed.

Lemma keeps_demote_and_build {A} item rd (instance : A) :
  keeps_chunks (demote_and_build item rd instance).
Proof.
  unfold demote_and_build. apply keeps_bind; [apply keeps_query|].
  intros [cr|]; [|apply keeps_raise].
  apply keeps_bind.
  - apply keeps_write. intros d a d'.
    destruct (current_taken _ (revisions d));
      [discriminate | now intros [= _ <-]].
  - intros _. apply keeps_bind; [apply keeps_process_revisions|].
    intros; apply keeps_ret.
Qed.

Lemma step_keeps_chunks s s' : step s s' -> chunks_kept s s'.
Proof.
  intros [vd s0 res s1 H | inst vd s0 res s1 H
         | vd s0 res s1 H | inst vd s0 res s1 H];
    revert H; match goal with |- ?m s0 = _ -> _ =>
      assert (K : keeps_chunks m); [|exact (K s0 res s1)] end.
  - apply keeps_atomic, keeps_bind.
    + apply keeps_write. now intros d a d' [= _ <-].
    + intros i. apply keeps_bind; [apply keeps_process_revisions|].
      intros; apply keeps_ret.
  - rewrite item_update_body. apply keeps_atomic, keeps_demote_and_build.
  - apply keeps_atomic, keeps_bind;
      [apply keeps_write; now intros d a d' [= _ <-]|].
    intros c. apply keeps_bind;
      [apply keeps_write; now intros d a d' [= _ <-]|].
    intros i. apply keeps_bind; [apply keeps_process_revisions|].
    intros _. apply keeps_bind;
      [apply keeps_write; now intros d a d' [= _ <-]|].
    intros _. apply keeps_bind;
      [apply keeps_write; now intros d a d' [= _ <-]|].
    intros; apply keeps_ret.
  - rewrite collection_update_body. apply keeps_atomic, keeps_bind.
    + unfold CollectionSerializer.mainItem.
      destruct (col_mainItem inst); [|apply keeps_ret].
      apply keeps_bind; [apply keeps_query|].
      intros [i|e]; [apply keeps_ret | apply keeps_raise].
    + intros [main|]; [apply keeps_demote_and_build | apply keeps_raise].
Qed.

(** X20. Chunks are never rewritten: whatever a call of one of the four
    writing methods does, and whether it returns or raises, a chunk row
    that was in the table is still there, and the bytes stored for it are
    the same. *)
Theorem chunks_never_rewritten s s' c content :
  step s s' ->
  In c (chunks (db s)) -> chunk_bytes s c = Some content ->
  In c (chunks (db s')) /\ chunk_bytes s' c = Some content.
Proof.
  intros H Hin Hb. destruct (step_keeps_chunks s s' H) as [[l El] [f Ef]].
  split.
  - rewrite El. apply in_or_app. now left.
  - unfold chunk_bytes in *. rewrite Ef. now apply storage_open_app.
Qed.

Lemma chunks_never_rewritten_witness :
  In {| chunk_id := 1; chunk_uid := "c1"; chunk_item := 1;
        chunk_chunkFile := 1 |} (chunks (db (snd Scenario.updated)))
  /\ chunk_bytes (snd Scenario.updated)
       {| chunk_id := 1; chunk_uid := "c1"; chunk_item := 1;
          chunk_chunkFile := 1 |} = Some Scenario.hello.
Proof.
  apply (chunks_never_rewritten (snd Scenario.created)).
  - apply (step_item_update Scenario.item
             (Scenario.payload "r2" [("c1"%string, None)])
             (snd Scenario.created) (fst Scenario.updated)).
    apply surjective_pairing.
  - left. reflexivity.
  - reflexivity.
Defined.
